(** * NVIDIA Tegra platform support: interrupt routing and the legacy
      interrupt controller (xen/arch/arm/platforms/tegra.c)

    The C file is embedded as Rocq functions over an explicit machine state.
    Unsigned 32-bit values are integers with the wrap-around written out,
    pointers are integer addresses with 0 for NULL, and the code that talks
    to hardware or to the rest of the hypervisor runs in a small state
    monad whose computations either finish or halt the hypervisor. *)

From Stdlib Require Import ZArith String Bool Lia.
From stdpp Require Import base list.

Local Open Scope Z_scope.

(** ** Constants of the headers

    asm/gic.h and asm/platforms/tegra.h are not part of the sources at hand,
    so the constants tegra.c takes from them are parameters of the whole
    development. *)

Class headers := {
  NR_LOCAL_IRQS : Z;
  TEGRA_ICTLR_BASE : Z;
  TEGRA_ICTLR_SIZE : Z;
  TEGRA_ICTLR_COUNT : Z;
  TEGRA_IRQS_PER_ICTLR : Z;
  TEGRA_ICTLR_CPU_IER_SET : Z;
  TEGRA_ICTLR_CPU_IER_CLR : Z;
  TEGRA_ICTLR_CPU_IEP_CLASS : Z;
  TEGRA_RESET_BASE : Z;
  TEGRA_RESET_SIZE : Z;
  TEGRA_RESET_MASK : Z
}.

(** What a usable set of constants satisfies: the threshold is an unsigned
    number, an instance has between 1 and 32 lines (one bit each of a 32-bit
    register), the register block of all instances fits an unsigned
    multiplication, and the three registers the code writes are distinct
    words inside one instance. *)
Record headers_ok `{headers} : Prop := {
  nr_local_range : 0 <= NR_LOCAL_IRQS < 2 ^ 32;
  irqs_per_ictlr_range : 0 < TEGRA_IRQS_PER_ICTLR <= 32;
  ictlr_count_pos : 0 < TEGRA_ICTLR_COUNT;
  ictlr_size_pos : 0 < TEGRA_ICTLR_SIZE;
  ictlr_block_range : TEGRA_ICTLR_SIZE * TEGRA_ICTLR_COUNT <= 2 ^ 32;
  ier_set_range : 0 <= TEGRA_ICTLR_CPU_IER_SET < TEGRA_ICTLR_SIZE;
  ier_clr_range : 0 <= TEGRA_ICTLR_CPU_IER_CLR < TEGRA_ICTLR_SIZE;
  iep_class_range : 0 <= TEGRA_ICTLR_CPU_IEP_CLASS < TEGRA_ICTLR_SIZE;
  ier_set_clr : TEGRA_ICTLR_CPU_IER_SET <> TEGRA_ICTLR_CPU_IER_CLR;
  ier_set_class : TEGRA_ICTLR_CPU_IER_SET <> TEGRA_ICTLR_CPU_IEP_CLASS;
  ier_clr_class : TEGRA_ICTLR_CPU_IER_CLR <> TEGRA_ICTLR_CPU_IEP_CLASS
}.

(** ** Data *)

(** [struct irq_desc]: the code reads its [irq] field only. *)
Record irq_desc := { irq : Z }.

(** [struct domain *]: a domain is known by its identity. *)
Record domain := { domain_id : Z }.

(** [struct dt_device_node *]: the identity of the node (its address) and
    the compatibility string it carries. *)
Record dt_device_node := { node_ptr : Z; compatible : string }.

(** [struct dt_raw_irq]: the code reads its [controller] field only. *)
Record dt_raw_irq := { controller : dt_device_node }.

(** One instance of the legacy interrupt controller, as the hardware holds
    it: the enable bits of its lines and their interrupt class bits. *)
Record ictlr_regs := { cpu_ier : Z; cpu_iep_class : Z }.

(** Why the hypervisor stopped: a failed ASSERT, or a panic. *)
Inductive fatal :=
| assert_failed (predicate : string)
| panicked (message : string).

Inductive outcome (A : Type) :=
| Done (a : A)
| Halt (why : fatal).
Arguments Done {A} a.
Arguments Halt {A} why.

(** What the code does that is visible outside of it, in program order. *)
Inductive event :=
| EvIoremap (pa size va : Z)
| EvIounmap (va : Z)
| EvReadl (addr val : Z)
| EvWritel (val addr : Z)
| EvPrintk (format : string) (args : list Z)
| EvGicRouteToXen (desc : irq_desc) (priority : Z)
| EvGicRouteToGuest (d : domain) (virq : Z) (desc : irq_desc) (priority rc : Z).

(** ** Unsigned arithmetic *)

(** Conversion to [unsigned int] / [uint32_t]. *)
Definition u32 (x : Z) : Z := x mod 2 ^ 32.

(** Conversion of an [int] to [unsigned int]: a negative value wraps around
    by 2^32, any other value is kept. On the values of an [int], and on
    those of an [unsigned int], this is the value modulo 2^32. *)
Definition int_to_unsigned (x : Z) : Z := if x <? 0 then x + 2 ^ 32 else x.

(** [BIT(nr)] is [1UL << nr]. *)
Definition BIT (nr : Z) : Z := Z.shiftl 1 nr.

(** ** The collaborators of tegra.c

    The generic interrupt controller driver (PIC), the virtual-memory
    mapper, the memory behind addresses this file does not model and the
    hardware domain are outside of tegra.c: they are parameters too. The PIC
    keeps a state of its own and answers a guest binding with a return
    code. *)
Class collaborators := {
  gic_state : Type;
  gic_bind_guest : domain -> Z -> irq_desc -> Z -> gic_state -> Z * gic_state;
  gic_bind_xen : irq_desc -> Z -> gic_state -> gic_state;
  vmap_result : Z -> Z -> Z;
  mmio_value : Z -> Z;
  hardware_domain : domain;
  dt_interrupt_controller : dt_device_node
}.

Section Tegra.

Context `{HDR : headers} `{COL : collaborators}.

(** ** Machine state *)

(** [tegra_ictlr_base] is the file's static variable (0 until the block is
    mapped); [ictlr] is the hardware, one entry per instance; [gic] is the
    state of the PIC; [trace] is the history of visible actions. *)
Record machine := {
  tegra_ictlr_base : Z;
  ictlr : list ictlr_regs;
  gic : gic_state;
  trace : list event
}.

Definition M (A : Type) : Type := machine -> outcome A * machine.

Definition ret {A} (a : A) : M A := fun s => (Done a, s).

Definition bind {A B} (c : M A) (k : A -> M B) : M B :=
  fun s =>
    match c s with
    | (Done a, s') => k a s'
    | (Halt why, s') => (Halt why, s')
    end.

Definition halt {A} (why : fatal) : M A := fun s => (Halt why, s).

Definition emit (e : event) : M unit :=
  fun s => (Done tt,
            {| tegra_ictlr_base := tegra_ictlr_base s; ictlr := ictlr s;
               gic := gic s; trace := trace s ++ [e] |}).

Notation "x <- c ;; k" := (bind c (fun x => k))
  (at level 100, c at next level, right associativity).
Notation "c ;;; k" := (bind c (fun _ => k))
  (at level 100, right associativity).

(** The static variable [tegra_ictlr_base]. *)
Definition load_tegra_ictlr_base : M Z :=
  fun s => (Done (tegra_ictlr_base s), s).

Definition store_tegra_ictlr_base (p : Z) : M unit :=
  fun s => (Done tt,
            {| tegra_ictlr_base := p; ictlr := ictlr s;
               gic := gic s; trace := trace s |}).

(** ** The legacy interrupt controller as a device *)

(** Modelled from the spec: the hardware behind the register block is no
    code of tegra.c. An instance has a write-only "set" register (a 1 bit
    enables exactly that line, the others are not disturbed), a write-only
    "clear" register (a 1 bit disables exactly that line) and an interrupt
    class register that holds what is written to it. A write to any other
    offset of the instance changes nothing that is modelled. *)
Definition ictlr_write_reg (reg val : Z) (r : ictlr_regs) : ictlr_regs :=
  if reg =? TEGRA_ICTLR_CPU_IER_SET then
    {| cpu_ier := Z.lor (cpu_ier r) val; cpu_iep_class := cpu_iep_class r |}
  else if reg =? TEGRA_ICTLR_CPU_IER_CLR then
    {| cpu_ier := Z.ldiff (cpu_ier r) val; cpu_iep_class := cpu_iep_class r |}
  else if reg =? TEGRA_ICTLR_CPU_IEP_CLASS then
    {| cpu_ier := cpu_ier r; cpu_iep_class := val |}
  else r.

(** Modelled from the spec: the register window is one block of
    [TEGRA_ICTLR_SIZE] bytes per instance, [TEGRA_ICTLR_COUNT] instances in
    a row, answering at the address the block was mapped to (the value of
    [tegra_ictlr_base], "permanent mapping to the Tegra legacy interrupt
    controller"). A write outside of the window does not reach the
    controller. *)
Definition ictlr_mmio_write (base addr val : Z) (hw : list ictlr_regs)
  : list ictlr_regs :=
  let off := addr - base in
  if negb (base =? 0) && (0 <=? off) && (off <? TEGRA_ICTLR_SIZE * TEGRA_ICTLR_COUNT)
  then alter (ictlr_write_reg (off mod TEGRA_ICTLR_SIZE) val)
             (Z.to_nat (off / TEGRA_ICTLR_SIZE)) hw
  else hw.

(** The enable bit the controller holds for a global interrupt number. *)
Definition ictlr_line_enabled (hw : list ictlr_regs) (irq : Z) : bool :=
  let line := irq - NR_LOCAL_IRQS in
  match hw !! Z.to_nat (line / TEGRA_IRQS_PER_ICTLR) with
  | Some r => Z.testbit (cpu_ier r) (line mod TEGRA_IRQS_PER_ICTLR)
  | None => false
  end.

(** ** Primitives the code calls *)

(** Modelled from the spec: ASSERT (xen/lib.h, absent from the sources) is a
    fatal check, a violated predicate stops the hypervisor. *)
Definition ASSERT (p : bool) (predicate : string) : M unit :=
  if p then ret tt else halt (assert_failed predicate).

Definition panic {A} (message : string) : M A := halt (panicked message).

Definition printk (format : string) (args : list Z) : M unit :=
  emit (EvPrintk format args).

Definition ioremap_nocache (pa size : Z) : M Z :=
  let va := vmap_result pa size in
  emit (EvIoremap pa size va) ;;; ret va.

Definition iounmap (va : Z) : M unit := emit (EvIounmap va).

(** [readl]: the code reads no register of the legacy controller, the value
    comes from the memory outside of the model. *)
Definition readl (addr : Z) : M Z :=
  let val := mmio_value addr in
  emit (EvReadl addr val) ;;; ret val.

(** [writel]: the write is visible, and the legacy controller reacts to it
    when the address falls into its window. *)
Definition writel (val addr : Z) : M unit :=
  fun s => (Done tt,
            {| tegra_ictlr_base := tegra_ictlr_base s;
               ictlr := ictlr_mmio_write (tegra_ictlr_base s) addr val (ictlr s);
               gic := gic s;
               trace := trace s ++ [EvWritel val addr] |}).

Definition gic_route_irq_to_guest (d : domain) (virq : Z) (desc : irq_desc)
  (priority : Z) : M Z :=
  fun s =>
    let r := gic_bind_guest d virq desc priority (gic s) in
    (Done (fst r),
     {| tegra_ictlr_base := tegra_ictlr_base s; ictlr := ictlr s;
        gic := snd r;
        trace := trace s ++ [EvGicRouteToGuest d virq desc priority (fst r)] |}).

Definition gic_route_irq_to_xen (desc : irq_desc) (priority : Z) : M unit :=
  fun s =>
    (Done tt,
     {| tegra_ictlr_base := tegra_ictlr_base s; ictlr := ictlr s;
        gic := gic_bind_xen desc priority (gic s);
        trace := trace s ++ [EvGicRouteToXen desc priority] |}).

(** Modelled from the spec: is_hardware_domain (xen/sched.h, absent from the
    sources) tells whether the target is the privileged hardware domain. *)
Definition is_hardware_domain (d : domain) : bool :=
  domain_id d =? domain_id hardware_domain.

(** ** Routability *)

Definition tegra_interrupt_compat : list string :=
  ["nvidia,tegra124-ictlr"; "nvidia,tegra210-ictlr"]%string.

(** Modelled from the spec: dt_device_is_compatible (the device-tree
    collaborator, absent from the sources) matches the compatibility string
    of a controller against a literal string, and the match is exact. *)
Definition dt_device_is_compatible (device : dt_device_node) (compat : string)
  : bool :=
  String.eqb (compatible device) compat.

(** The loop of [tegra_irq_belongs_to_ictlr] over a table of strings. *)
Fixpoint irq_belongs_to (table : list string) (rirq : dt_raw_irq) : bool :=
  match table with
  | [] => false
  | compat :: rest =>
      if dt_device_is_compatible (controller rirq) compat then true
      else irq_belongs_to rest rirq
  end.

Definition tegra_irq_belongs_to_ictlr (rirq : dt_raw_irq) : bool :=
  irq_belongs_to tegra_interrupt_compat rirq.

Definition tegra_irq_is_routable (rirq : dt_raw_irq) : bool :=
  if node_ptr (controller rirq) =? node_ptr dt_interrupt_controller then true
  else if tegra_irq_belongs_to_ictlr rirq then true
  else false.

(** The newline that ends a log line. *)
Definition newline : string := String (Ascii.ascii_of_nat 10) EmptyString.

(** ** The enable bits of the legacy controller *)

Definition tegra_ictlr_set_interrupt_enable (irq : Z) (enabled : bool)
  : M unit :=
  let register_number :=
    if enabled then TEGRA_ICTLR_CPU_IER_SET else TEGRA_ICTLR_CPU_IER_CLR in
  let ictlr_irq := u32 (irq - NR_LOCAL_IRQS) in
  let ictlr_number := ictlr_irq / TEGRA_IRQS_PER_ICTLR in
  base <- load_tegra_ictlr_base ;;
  let target_ictlr := base + u32 (TEGRA_ICTLR_SIZE * ictlr_number) in
  let mask := u32 (BIT (ictlr_irq mod TEGRA_IRQS_PER_ICTLR)) in
  ASSERT (negb (base =? 0)) "tegra_ictlr_base" ;;;
  ASSERT (ictlr_number <? TEGRA_ICTLR_COUNT) "ictlr_number < TEGRA_ICTLR_COUNT" ;;;
  ASSERT (NR_LOCAL_IRQS <=? irq) "irq >= NR_LOCAL_IRQS" ;;;
  writel mask (target_ictlr + register_number).

(** ** Routing *)

Definition tegra_route_irq_to_guest (d : domain) (virq : Z) (desc : irq_desc)
  (priority : Z) : M Z :=
  rc <- gic_route_irq_to_guest d virq desc priority ;;
  if negb (rc =? 0) then
    printk (String.append
              "Tegra LIC: Couldn't program GIC to route vIRQ %d (%d)."
              newline) [irq desc; rc] ;;;
    ret rc
  else if irq desc <? NR_LOCAL_IRQS then
    ret rc
  else
    tegra_ictlr_set_interrupt_enable (irq desc) (negb (is_hardware_domain d)) ;;;
    ret rc.

Definition tegra_route_irq_to_xen (desc : irq_desc) (priority : Z) : M unit :=
  let irq := int_to_unsigned (irq desc) in
  gic_route_irq_to_xen desc priority ;;;
  if irq <? NR_LOCAL_IRQS then
    ret tt
  else
    tegra_ictlr_set_interrupt_enable irq true.

(** ** Initialization *)

(** [for ( i = start; i < start + n; i++ ) body(i)] *)
Fixpoint for_loop (n : nat) (i : Z) (body : Z -> M unit) : M unit :=
  match n with
  | O => ret tt
  | S n' => body i ;;; for_loop n' (i + 1) body
  end.

Definition tegra_initialize_legacy_interrupt_controller : M Z :=
  va <- ioremap_nocache TEGRA_ICTLR_BASE (TEGRA_ICTLR_SIZE * TEGRA_ICTLR_COUNT) ;;
  store_tegra_ictlr_base va ;;;
  base <- load_tegra_ictlr_base ;;
  (if base =? 0 then
     panic (String.append
              "Failed to map in the Tegra legacy interrupt controller!"
              newline)
   else ret tt) ;;;
  for_loop (Z.to_nat TEGRA_ICTLR_COUNT) 0
    (fun i =>
       base <- load_tegra_ictlr_base ;;
       let ictlr_n := base + TEGRA_ICTLR_SIZE * i in
       writel (u32 (Z.lnot 0)) (ictlr_n + TEGRA_ICTLR_CPU_IER_CLR) ;;;
       writel 0 (ictlr_n + TEGRA_ICTLR_CPU_IEP_CLASS)) ;;;
  ret 0.

Definition tegra_init : M Z := tegra_initialize_legacy_interrupt_controller.

(** ** Sequences of routing calls *)

Inductive routing_call :=
| route_to_xen (desc : irq_desc) (priority : Z)
| route_to_guest (d : domain) (virq : Z) (desc : irq_desc) (priority : Z).

Definition run_call (c : routing_call) : M unit :=
  match c with
  | route_to_xen desc priority => tegra_route_irq_to_xen desc priority
  | route_to_guest d virq desc priority =>
      tegra_route_irq_to_guest d virq desc priority ;;; ret tt
  end.

Fixpoint run_calls (cs : list routing_call) : M unit :=
  match cs with
  | [] => ret tt
  | c :: rest => run_call c ;;; run_calls rest
  end.

End Tegra.

Notation "x <- c ;; k" := (bind c (fun x => k))
  (at level 100, c at next level, right associativity).
Notation "c ;;; k" := (bind c (fun _ => k))
  (at level 100, right associativity).

(** * Derived quantities and states *)

Section Observations.

Context `{HDR : headers} `{COL : collaborators}.

(** [tegra_irq_is_routable] over a table of strings listed in any order. *)
Definition irq_is_routable_with (table : list string) (rirq : dt_raw_irq)
  : bool :=
  if node_ptr (controller rirq) =? node_ptr dt_interrupt_controller then true
  else if irq_belongs_to table rirq then true
  else false.

(** The instance index and the mask as the code derives them, with the
    unsigned subtraction. *)
Definition ictlr_number_of (irq : Z) : Z :=
  u32 (irq - NR_LOCAL_IRQS) / TEGRA_IRQS_PER_ICTLR.

Definition ictlr_mask_of (irq : Z) : Z :=
  u32 (BIT (u32 (irq - NR_LOCAL_IRQS) mod TEGRA_IRQS_PER_ICTLR)).

(** The instance index and the bit offset in the words of the
    specification. *)
Definition ictlr_instance (irq : Z) : Z :=
  (irq - NR_LOCAL_IRQS) / TEGRA_IRQS_PER_ICTLR.

Definition ictlr_bit (irq : Z) : Z :=
  (irq - NR_LOCAL_IRQS) mod TEGRA_IRQS_PER_ICTLR.

Definition ier_register (enabled : bool) : Z :=
  if enabled then TEGRA_ICTLR_CPU_IER_SET else TEGRA_ICTLR_CPU_IER_CLR.

(** The address of a register of an instance in a window mapped at [base]. *)
Definition ictlr_reg_addr (base instance reg : Z) : Z :=
  base + TEGRA_ICTLR_SIZE * instance + reg.

(** The first of the three sanity checks that does not hold, if any. *)
Definition failed_assertion (irq : Z) (s : machine) : option string :=
  if tegra_ictlr_base s =? 0 then Some "tegra_ictlr_base"%string
  else if negb (ictlr_number_of irq <? TEGRA_ICTLR_COUNT)
       then Some "ictlr_number < TEGRA_ICTLR_COUNT"%string
  else if negb (NR_LOCAL_IRQS <=? irq) then Some "irq >= NR_LOCAL_IRQS"%string
  else None.

(** The hardware has one entry per instance. *)
Definition ictlr_present (s : machine) : Prop :=
  length (ictlr s) = Z.to_nat TEGRA_ICTLR_COUNT.

(** The preconditions of the enable-state controller. *)
Definition set_enable_pre (irq : Z) (s : machine) : Prop :=
  tegra_ictlr_base s <> 0 /\
  NR_LOCAL_IRQS <= irq < 2 ^ 32 /\
  ictlr_instance irq < TEGRA_ICTLR_COUNT.

(** The state after one register write that reached the controller. *)
Definition after_write (s : machine) (instance reg val : Z) : machine :=
  {| tegra_ictlr_base := tegra_ictlr_base s;
     ictlr := alter (ictlr_write_reg reg val) (Z.to_nat instance) (ictlr s);
     gic := gic s;
     trace := trace s ++
       [EvWritel val (ictlr_reg_addr (tegra_ictlr_base s) instance reg)] |}.

(** The state once the PIC has bound the interrupt for the hypervisor. *)
Definition after_gic_xen (desc : irq_desc) (priority : Z) (s : machine)
  : machine :=
  {| tegra_ictlr_base := tegra_ictlr_base s; ictlr := ictlr s;
     gic := gic_bind_xen desc priority (gic s);
     trace := trace s ++ [EvGicRouteToXen desc priority] |}.

(** The state once the PIC has answered a guest binding. *)
Definition after_gic_guest (d : domain) (virq : Z) (desc : irq_desc)
  (priority : Z) (s : machine) : machine :=
  {| tegra_ictlr_base := tegra_ictlr_base s; ictlr := ictlr s;
     gic := snd (gic_bind_guest d virq desc priority (gic s));
     trace := trace s ++
       [EvGicRouteToGuest d virq desc priority
          (fst (gic_bind_guest d virq desc priority (gic s)))] |}.

(** An instance once all-ones went to its clear register and all-zeros to
    its class register. *)
Definition reset_regs (r : ictlr_regs) : ictlr_regs :=
  {| cpu_ier := Z.ldiff (cpu_ier r) (2 ^ 32 - 1); cpu_iep_class := 0 |}.

(** The two writes of the initialization loop for instance [i]. *)
Definition reset_writes (base i : Z) : list event :=
  [EvWritel (2 ^ 32 - 1) (ictlr_reg_addr base i TEGRA_ICTLR_CPU_IER_CLR);
   EvWritel 0 (ictlr_reg_addr base i TEGRA_ICTLR_CPU_IEP_CLASS)].

(** The state after the body of the loop ran for instance [i]. *)
Definition after_reset (s : machine) (i : Z) : machine :=
  after_write (after_write s i TEGRA_ICTLR_CPU_IER_CLR (2 ^ 32 - 1))
    i TEGRA_ICTLR_CPU_IEP_CLASS 0.

(** The state after [n] rounds of the loop, from instance [i] on. *)
Fixpoint after_resets (n : nat) (i : Z) (s : machine) : machine :=
  match n with
  | O => s
  | S n' => after_resets n' (i + 1) (after_reset s i)
  end.

(** The body of the loop of
    [tegra_initialize_legacy_interrupt_controller]. *)
Definition init_loop_body (i : Z) : M unit :=
  base <- load_tegra_ictlr_base ;;
  let ictlr_n := base + TEGRA_ICTLR_SIZE * i in
  writel (u32 (Z.lnot 0)) (ictlr_n + TEGRA_ICTLR_CPU_IER_CLR) ;;;
  writel 0 (ictlr_n + TEGRA_ICTLR_CPU_IEP_CLASS).

(** The class registers of all instances, in order. *)
Definition class_regs (s : machine) : list Z := cpu_iep_class <$> ictlr s.

(** The global interrupt number a routing call is about. *)
Definition call_irq (c : routing_call) : Z :=
  match c with
  | route_to_xen desc _ => irq desc
  | route_to_guest _ _ desc _ => irq desc
  end.

(** The visible actions routing is made of: calls of the PIC, the log
    line of a failed guest binding, and writes to the set or clear register
    of an instance inside the window mapped at [base]. *)
Definition routing_event (base : Z) (e : event) : bool :=
  match e with
  | EvGicRouteToXen _ _ => true
  | EvGicRouteToGuest _ _ _ _ _ => true
  | EvPrintk _ _ => true
  | EvWritel _ addr =>
      (base <=? addr) && (addr <? base + TEGRA_ICTLR_SIZE * TEGRA_ICTLR_COUNT) &&
      (((addr - base) mod TEGRA_ICTLR_SIZE =? TEGRA_ICTLR_CPU_IER_SET) ||
       ((addr - base) mod TEGRA_ICTLR_SIZE =? TEGRA_ICTLR_CPU_IER_CLR))
  | _ => false
  end.

End Observations.

(** * A platform to run the code on *)

(** A set of constants: 32 local interrupts, six instances of 32 lines and
    0x100 bytes each, the set, clear and class registers at 0x24, 0x28 and
    0x2c of an instance. *)
Definition sample_headers : headers := {|
  NR_LOCAL_IRQS := 32;
  TEGRA_ICTLR_BASE := 0x60004000;
  TEGRA_ICTLR_SIZE := 0x100;
  TEGRA_ICTLR_COUNT := 6;
  TEGRA_IRQS_PER_ICTLR := 32;
  TEGRA_ICTLR_CPU_IER_SET := 0x24;
  TEGRA_ICTLR_CPU_IER_CLR := 0x28;
  TEGRA_ICTLR_CPU_IEP_CLASS := 0x2c;
  TEGRA_RESET_BASE := 0x7000e400;
  TEGRA_RESET_SIZE := 4;
  TEGRA_RESET_MASK := 0x10
|}.

(** Collaborators: a PIC that remembers the interrupts it has bound and
    answers -16 (busy) to a guest binding of an interrupt that is bound
    already, a mapper that answers [va] (0 when it fails), domain 0 as the
    hardware domain. *)
Definition sample_collaborators (va : Z) : collaborators := {|
  gic_state := list Z;
  gic_bind_guest := fun d virq desc priority bound =>
    if existsb (Z.eqb (irq desc)) bound then (-16, bound)
    else (0, irq desc :: bound);
  gic_bind_xen := fun desc priority bound => irq desc :: bound;
  vmap_result := fun pa size => va;
  mmio_value := fun addr => 0;
  hardware_domain := {| domain_id := 0 |};
  dt_interrupt_controller :=
    {| node_ptr := 0x8000; compatible := "arm,gic-400" |}
|}.

Definition sample_va : Z := 0x40004000.

(** The machine before initialization: nothing mapped, the controller in
    whatever state the firmware left it. *)
Definition power_on (va : Z) : machine (COL := sample_collaborators va) :=
  Build_machine (COL := sample_collaborators va)
    0 (replicate 6 {| cpu_ier := 0xffffffff; cpu_iep_class := 0xff |}) [] [].

(** A machine after initialization, with [ier0] in the enable register of
    instance 0 and the interrupts [bound] known to the PIC. *)
Definition running (ier0 : Z) (bound : list Z)
  : machine (COL := sample_collaborators sample_va) :=
  Build_machine (COL := sample_collaborators sample_va)
    sample_va
    ({| cpu_ier := ier0; cpu_iep_class := 0 |}
     :: replicate 5 {| cpu_ier := 0; cpu_iep_class := 0 |})
    bound [].

Definition dom0 : domain := {| domain_id := 0 |}.
Definition domU : domain := {| domain_id := 7 |}.

(** The machine once [tegra_init] has run on [power_on]. *)
Definition booted : machine (COL := sample_collaborators sample_va) :=
  snd (tegra_init (HDR := sample_headers) (power_on sample_va)).

(** IRQ 50 for the hypervisor, IRQ 51 for the hardware domain, the local
    IRQ 10 and IRQ 83 (instance 1) for a guest. *)
Definition sample_calls : list routing_call :=
  [route_to_xen {| irq := 50 |} 0xa0;
   route_to_guest dom0 51 {| irq := 51 |} 0xa0;
   route_to_guest domU 10 {| irq := 10 |} 0xa0;
   route_to_guest domU 83 {| irq := 83 |} 0xa0].

(** * Properties *)

Section Properties.

Context `{HDR : headers} `{COL : collaborators}.

(** ** Derived quantities *)

(** ** Arithmetic *)

Lemma u32_small x : 0 <= x < 2 ^ 32 -> u32 x = x.
Proof. intros Hx. unfold u32. now apply Z.mod_small. Qed.

Lemma u32_range x : 0 <= u32 x < 2 ^ 32.
Proof. unfold u32. apply Z.mod_pos_bound. lia. Qed.

Lemma ictlr_number_nonneg irq : headers_ok -> 0 <= ictlr_number_of irq.
Proof.
  intros Hok. unfold ictlr_number_of.
  pose proof irqs_per_ictlr_range Hok. pose proof (u32_range (irq - NR_LOCAL_IRQS)).
  apply Z.div_pos; lia.
Qed.

Lemma ictlr_number_instance irq :
  headers_ok -> NR_LOCAL_IRQS <= irq < 2 ^ 32 ->
  ictlr_number_of irq = ictlr_instance irq.
Proof.
  intros Hok Hirq. unfold ictlr_number_of, ictlr_instance.
  pose proof nr_local_range Hok. rewrite u32_small by lia. reflexivity.
Qed.

Lemma bit_testbit k j : 0 <= k -> Z.testbit (2 ^ k) j = (j =? k).
Proof.
  intros Hk. destruct (Z.eqb_spec j k) as [->|Hne].
  - now apply Z.pow2_bits_true.
  - apply Z.pow2_bits_false. congruence.
Qed.

Lemma ictlr_mask_bit irq :
  headers_ok -> NR_LOCAL_IRQS <= irq < 2 ^ 32 ->
  ictlr_mask_of irq = 2 ^ ictlr_bit irq.
Proof.
  intros Hok Hirq. unfold ictlr_mask_of, ictlr_bit, BIT.
  pose proof nr_local_range Hok. pose proof irqs_per_ictlr_range Hok.
  rewrite (u32_small (irq - NR_LOCAL_IRQS)) by lia.
  pose proof (Z.mod_pos_bound (irq - NR_LOCAL_IRQS) TEGRA_IRQS_PER_ICTLR) as Hb.
  rewrite Z.shiftl_1_l. apply u32_small. split.
  - apply Z.pow_nonneg. lia.
  - apply Z.pow_lt_mono_r; lia.
Qed.

Lemma ictlr_bit_range irq :
  headers_ok -> 0 <= ictlr_bit irq < 32.
Proof.
  intros Hok. unfold ictlr_bit. pose proof irqs_per_ictlr_range Hok.
  pose proof (Z.mod_pos_bound (irq - NR_LOCAL_IRQS) TEGRA_IRQS_PER_ICTLR). lia.
Qed.

(** Two global interrupt numbers with the same instance and the same bit
    are the same number. *)
Lemma ictlr_instance_bit_inj irq irq' :
  headers_ok ->
  ictlr_instance irq = ictlr_instance irq' -> ictlr_bit irq = ictlr_bit irq' ->
  irq = irq'.
Proof.
  intros Hok Hi Hb. unfold ictlr_instance, ictlr_bit in *.
  pose proof irqs_per_ictlr_range Hok.
  pose proof (Z.div_mod (irq - NR_LOCAL_IRQS) TEGRA_IRQS_PER_ICTLR).
  pose proof (Z.div_mod (irq' - NR_LOCAL_IRQS) TEGRA_IRQS_PER_ICTLR).
  rewrite Hi, Hb in *. lia.
Qed.

(** ** The device *)

(** A write to a register of an instance that lies in the window reaches
    exactly that register of that instance. *)
Lemma ictlr_mmio_write_reg base n reg val hw :
  headers_ok -> base <> 0 ->
  0 <= n < TEGRA_ICTLR_COUNT -> 0 <= reg < TEGRA_ICTLR_SIZE ->
  ictlr_mmio_write base (ictlr_reg_addr base n reg) val hw =
  alter (ictlr_write_reg reg val) (Z.to_nat n) hw.
Proof.
  intros Hok Hb Hn Hreg. unfold ictlr_mmio_write, ictlr_reg_addr.
  pose proof ictlr_size_pos Hok.
  replace (base + TEGRA_ICTLR_SIZE * n + reg - base)
    with (reg + n * TEGRA_ICTLR_SIZE) by lia.
  rewrite Z_mod_plus_full, Z_div_plus_full by lia.
  rewrite Z.mod_small, Z.div_small by lia.
  replace (negb (base =? 0)) with true
    by (symmetry; apply negb_true_iff; lia).
  replace (0 <=? reg + n * TEGRA_ICTLR_SIZE) with true by (symmetry; nia).
  replace (reg + n * TEGRA_ICTLR_SIZE <? TEGRA_ICTLR_SIZE * TEGRA_ICTLR_COUNT)
    with true by (symmetry; apply Z.ltb_lt; nia).
  reflexivity.
Qed.

(** ** The enable-state controller, step by step *)

Lemma ier_register_range enabled :
  headers_ok -> 0 <= ier_register enabled < TEGRA_ICTLR_SIZE.
Proof.
  intros Hok. pose proof ier_set_range Hok. pose proof ier_clr_range Hok.
  destruct enabled; simpl; lia.
Qed.

(** The whole behaviour of [tegra_ictlr_set_interrupt_enable]: either one of
    the checks fails and the hypervisor halts in the state it was in, or one
    register of one instance is written. *)
Lemma set_enable_run irq enabled s :
  headers_ok ->
  tegra_ictlr_set_interrupt_enable irq enabled s =
  match failed_assertion irq s with
  | Some predicate => (Halt (assert_failed predicate), s)
  | None => (Done tt, after_write s (ictlr_number_of irq)
                        (ier_register enabled) (ictlr_mask_of irq))
  end.
Proof.
  intros Hok.
  unfold tegra_ictlr_set_interrupt_enable, failed_assertion, bind,
    load_tegra_ictlr_base, ASSERT, ret, halt.
  fold (ictlr_number_of irq). fold (ictlr_mask_of irq). fold (ier_register enabled).
  destruct (Z.eqb_spec (tegra_ictlr_base s) 0) as [Hz|Hnz]; simpl; [reflexivity|].
  destruct (Z.ltb_spec (ictlr_number_of irq) TEGRA_ICTLR_COUNT) as [Hlt|Hge];
    simpl; [|reflexivity].
  destruct (Z.leb_spec NR_LOCAL_IRQS irq) as [Hle|Hgt]; simpl; [|reflexivity].
  unfold writel, after_write.
  pose proof (ictlr_number_nonneg irq Hok) as Hn.
  pose proof ictlr_block_range Hok. pose proof ictlr_size_pos Hok.
  rewrite (u32_small (TEGRA_ICTLR_SIZE * ictlr_number_of irq)) by nia.
  fold (ictlr_reg_addr (tegra_ictlr_base s) (ictlr_number_of irq)
          (ier_register enabled)).
  rewrite ictlr_mmio_write_reg by (auto using ier_register_range; lia).
  reflexivity.
Qed.

Lemma failed_assertion_none irq s :
  headers_ok -> set_enable_pre irq s -> failed_assertion irq s = None.
Proof.
  intros Hok (Hb & Hirq & Hinst). unfold failed_assertion.
  rewrite (ictlr_number_instance irq Hok Hirq).
  destruct (Z.eqb_spec (tegra_ictlr_base s) 0); [contradiction|].
  destruct (Z.ltb_spec (ictlr_instance irq) TEGRA_ICTLR_COUNT); [|lia].
  destruct (Z.leb_spec NR_LOCAL_IRQS irq); [|lia]. reflexivity.
Qed.

(** Within its preconditions the controller writes the one-bit mask to the
    set or clear register of the instance of the interrupt. *)
Lemma set_enable_pre_run irq enabled s :
  headers_ok -> set_enable_pre irq s ->
  tegra_ictlr_set_interrupt_enable irq enabled s =
  (Done tt, after_write s (ictlr_instance irq) (ier_register enabled)
              (2 ^ ictlr_bit irq)).
Proof.
  intros Hok Hpre. rewrite set_enable_run by assumption.
  rewrite (failed_assertion_none irq s Hok Hpre).
  destruct Hpre as (_ & Hirq & _).
  rewrite (ictlr_number_instance irq Hok Hirq), (ictlr_mask_bit irq Hok Hirq).
  reflexivity.
Qed.

(** C3: for a global interrupt number at or above the threshold (and within
    the preconditions of the controller: window mapped, instance below the
    instance count), set_enable returns after exactly one visible action, a
    write of the mask whose only set bit is
    (irq - threshold) mod lines-per-instance to the set register (enabling)
    or the clear register (disabling) of instance
    (irq - threshold) / lines-per-instance; no register is read. *)
Theorem set_enable_writes_one_bit_mask irq (enabled : bool) s :
  headers_ok -> set_enable_pre irq s ->
  let instance := (irq - NR_LOCAL_IRQS) / TEGRA_IRQS_PER_ICTLR in
  let bit := (irq - NR_LOCAL_IRQS) mod TEGRA_IRQS_PER_ICTLR in
  let reg := if enabled then TEGRA_ICTLR_CPU_IER_SET
             else TEGRA_ICTLR_CPU_IER_CLR in
  exists mask s',
    tegra_ictlr_set_interrupt_enable irq enabled s = (Done tt, s') /\
    (forall j, Z.testbit mask j = (j =? bit)) /\
    trace s' = trace s ++
      [EvWritel mask (tegra_ictlr_base s + TEGRA_ICTLR_SIZE * instance + reg)] /\
    tegra_ictlr_base s' = tegra_ictlr_base s /\
    gic s' = gic s.
Proof.
  intros Hok Hpre instance bit reg.
  exists (2 ^ ictlr_bit irq), (after_write s (ictlr_instance irq)
                                (ier_register enabled) (2 ^ ictlr_bit irq)).
  split; [now apply set_enable_pre_run|].
  split; [|now repeat split].
  intros j. apply bit_testbit. apply (ictlr_bit_range irq Hok).
Qed.

(** The write of a call that returns lies inside the mapped window. *)
Lemma reg_addr_in_window base n reg :
  headers_ok -> 0 <= n < TEGRA_ICTLR_COUNT -> 0 <= reg < TEGRA_ICTLR_SIZE ->
  base <= ictlr_reg_addr base n reg <
  base + TEGRA_ICTLR_SIZE * TEGRA_ICTLR_COUNT.
Proof.
  intros Hok Hn Hreg. unfold ictlr_reg_addr. pose proof ictlr_size_pos Hok. nia.
Qed.

(** C6: the three preconditions of set_enable (window mapped, interrupt
    number at or above the threshold, derived instance index below the
    instance count) are fatal checks made before the write: when one of them
    is violated the call halts on a failed assertion in the very state it
    started from (nothing was written), and a call that returns has written
    inside the mapped window only. *)
Theorem set_enable_asserts_before_write irq enabled s :
  headers_ok ->
  ((tegra_ictlr_base s = 0 \/ irq < NR_LOCAL_IRQS \/
    TEGRA_ICTLR_COUNT <= ictlr_number_of irq) ->
   exists predicate,
     tegra_ictlr_set_interrupt_enable irq enabled s =
     (Halt (assert_failed predicate), s)) /\
  (forall s',
     tegra_ictlr_set_interrupt_enable irq enabled s = (Done tt, s') ->
     tegra_ictlr_base s <> 0 /\ NR_LOCAL_IRQS <= irq /\
     ictlr_number_of irq < TEGRA_ICTLR_COUNT /\
     exists val addr,
       trace s' = trace s ++ [EvWritel val addr] /\
       tegra_ictlr_base s <= addr <
       tegra_ictlr_base s + TEGRA_ICTLR_SIZE * TEGRA_ICTLR_COUNT).
Proof.
  intros Hok. rewrite set_enable_run by assumption. unfold failed_assertion.
  destruct (Z.eqb_spec (tegra_ictlr_base s) 0) as [Hz|Hnz]; simpl.
  { split; [eauto|discriminate]. }
  destruct (Z.ltb_spec (ictlr_number_of irq) TEGRA_ICTLR_COUNT) as [Hlt|Hge];
    simpl.
  2: { split; [eauto|discriminate]. }
  destruct (Z.leb_spec NR_LOCAL_IRQS irq) as [Hle|Hgt]; simpl.
  2: { split; [eauto|discriminate]. }
  split; [lia|].
  intros s' Hrun. injection Hrun as <-. repeat (split; [assumption|]).
  eexists _, _. split; [reflexivity|].
  apply reg_addr_in_window; auto using ier_register_range.
  split; [now apply ictlr_number_nonneg | assumption].
Qed.

(** ** The enable bits after a register write *)

Lemma write_reg_set val r :
  ictlr_write_reg TEGRA_ICTLR_CPU_IER_SET val r =
  {| cpu_ier := Z.lor (cpu_ier r) val; cpu_iep_class := cpu_iep_class r |}.
Proof. unfold ictlr_write_reg. now rewrite Z.eqb_refl. Qed.

Lemma write_reg_clr val r :
  headers_ok ->
  ictlr_write_reg TEGRA_ICTLR_CPU_IER_CLR val r =
  {| cpu_ier := Z.ldiff (cpu_ier r) val; cpu_iep_class := cpu_iep_class r |}.
Proof.
  intros Hok. unfold ictlr_write_reg. pose proof ier_set_clr Hok.
  destruct (Z.eqb_spec TEGRA_ICTLR_CPU_IER_CLR TEGRA_ICTLR_CPU_IER_SET);
    [congruence|].
  now rewrite Z.eqb_refl.
Qed.

Lemma write_reg_class val r :
  headers_ok ->
  ictlr_write_reg TEGRA_ICTLR_CPU_IEP_CLASS val r =
  {| cpu_ier := cpu_ier r; cpu_iep_class := val |}.
Proof.
  intros Hok. unfold ictlr_write_reg.
  pose proof ier_set_class Hok. pose proof ier_clr_class Hok.
  destruct (Z.eqb_spec TEGRA_ICTLR_CPU_IEP_CLASS TEGRA_ICTLR_CPU_IER_SET);
    [congruence|].
  destruct (Z.eqb_spec TEGRA_ICTLR_CPU_IEP_CLASS TEGRA_ICTLR_CPU_IER_CLR);
    [congruence|].
  now rewrite Z.eqb_refl.
Qed.

(** The bits of the enable register after a write to the set or clear
    register. *)
Lemma write_reg_ier_bit enabled val r j :
  headers_ok ->
  Z.testbit (cpu_ier (ictlr_write_reg (ier_register enabled) val r)) j =
  if enabled then Z.testbit (cpu_ier r) j || Z.testbit val j
  else Z.testbit (cpu_ier r) j && negb (Z.testbit val j).
Proof.
  intros Hok. destruct enabled; simpl.
  - rewrite write_reg_set. simpl. apply Z.lor_spec.
  - rewrite write_reg_clr by assumption. simpl. apply Z.ldiff_spec.
Qed.

(** A write to the set or clear register leaves the class register. *)
Lemma write_reg_ier_class enabled val r :
  headers_ok ->
  cpu_iep_class (ictlr_write_reg (ier_register enabled) val r) =
  cpu_iep_class r.
Proof.
  intros Hok. destruct enabled; simpl.
  - now rewrite write_reg_set.
  - now rewrite write_reg_clr.
Qed.

(** Writing the same value to the same register twice is writing it once. *)
Lemma write_reg_twice reg val r :
  ictlr_write_reg reg val (ictlr_write_reg reg val r) = ictlr_write_reg reg val r.
Proof.
  unfold ictlr_write_reg.
  destruct (reg =? TEGRA_ICTLR_CPU_IER_SET); simpl.
  { f_equal. rewrite <- Z.lor_assoc. now rewrite Z.lor_diag. }
  destruct (reg =? TEGRA_ICTLR_CPU_IER_CLR); simpl.
  { f_equal. apply Z.bits_inj'. intros n _.
    rewrite !Z.ldiff_spec. now destruct (Z.testbit (cpu_ier r) n), (Z.testbit val n). }
  destruct (reg =? TEGRA_ICTLR_CPU_IEP_CLASS); reflexivity.
Qed.

Lemma instance_present irq s :
  headers_ok -> ictlr_present s -> set_enable_pre irq s ->
  is_Some (ictlr s !! Z.to_nat (ictlr_instance irq)).
Proof.
  intros Hok Hlen (_ & Hirq & Hinst). apply lookup_lt_is_Some.
  rewrite Hlen. pose proof irqs_per_ictlr_range Hok.
  assert (0 <= ictlr_instance irq)
    by (unfold ictlr_instance; apply Z.div_pos; lia).
  lia.
Qed.

(** The line of the interrupt after the write of its one-bit mask: it is
    enabled by the set register when its instance exists, and disabled by
    the clear register. *)
Lemma line_after_write_same irq enabled hw :
  headers_ok -> NR_LOCAL_IRQS <= irq ->
  is_Some (hw !! Z.to_nat (ictlr_instance irq)) ->
  ictlr_line_enabled
    (alter (ictlr_write_reg (ier_register enabled) (2 ^ ictlr_bit irq))
       (Z.to_nat (ictlr_instance irq)) hw) irq = enabled.
Proof.
  intros Hok Hirq [r Hr]. unfold ictlr_line_enabled.
  fold (ictlr_instance irq). fold (ictlr_bit irq).
  rewrite list_lookup_alter_eq, Hr. simpl.
  rewrite write_reg_ier_bit by assumption.
  rewrite bit_testbit by apply (ictlr_bit_range irq Hok).
  rewrite Z.eqb_refl. destruct enabled; simpl.
  - apply orb_true_r.
  - apply andb_false_r.
Qed.

(** Every other line of the controller keeps its enable bit. *)
Lemma line_after_write_other irq irq' enabled hw :
  headers_ok -> NR_LOCAL_IRQS <= irq -> NR_LOCAL_IRQS <= irq' -> irq' <> irq ->
  ictlr_line_enabled
    (alter (ictlr_write_reg (ier_register enabled) (2 ^ ictlr_bit irq))
       (Z.to_nat (ictlr_instance irq)) hw) irq' =
  ictlr_line_enabled hw irq'.
Proof.
  intros Hok Hirq Hirq' Hne. unfold ictlr_line_enabled.
  fold (ictlr_instance irq'). fold (ictlr_bit irq').
  pose proof irqs_per_ictlr_range Hok.
  assert (0 <= ictlr_instance irq)
    by (unfold ictlr_instance; apply Z.div_pos; lia).
  assert (0 <= ictlr_instance irq')
    by (unfold ictlr_instance; apply Z.div_pos; lia).
  destruct (Z.eq_dec (ictlr_instance irq') (ictlr_instance irq)) as [Hi|Hi].
  - rewrite Hi, list_lookup_alter_eq.
    destruct (hw !! Z.to_nat (ictlr_instance irq)) as [r|]; simpl; [|reflexivity].
    rewrite write_reg_ier_bit by assumption.
    rewrite bit_testbit by apply (ictlr_bit_range irq Hok).
    destruct (Z.eqb_spec (ictlr_bit irq') (ictlr_bit irq)) as [Hb|Hb].
    + exfalso. apply Hne. now apply ictlr_instance_bit_inj.
    + destruct enabled; simpl.
      * apply orb_false_r.
      * apply andb_true_r.
  - rewrite list_lookup_alter_ne by lia. reflexivity.
Qed.

Lemma set_enable_pre_after_write irq s n reg val :
  set_enable_pre irq s -> set_enable_pre irq (after_write s n reg val).
Proof. intros H. exact H. Qed.

(** C8: for an interrupt at or above the threshold (within the
    preconditions of the controller) and every starting state of the
    controller, set_enable(irq, true) followed by set_enable(irq, false)
    returns with the enable bit of irq clear and the enable bit of every
    other line of the same instance as it was before the two calls. *)
Theorem enable_then_disable_round_trip irq s :
  headers_ok -> set_enable_pre irq s ->
  exists s2,
    (tegra_ictlr_set_interrupt_enable irq true ;;;
     tegra_ictlr_set_interrupt_enable irq false) s = (Done tt, s2) /\
    ictlr_line_enabled (ictlr s2) irq = false /\
    (forall irq',
       NR_LOCAL_IRQS <= irq' -> irq' <> irq ->
       ictlr_instance irq' = ictlr_instance irq ->
       ictlr_line_enabled (ictlr s2) irq' = ictlr_line_enabled (ictlr s) irq').
Proof.
  intros Hok Hpre. unfold bind at 1.
  rewrite (set_enable_pre_run irq true s Hok Hpre).
  rewrite set_enable_pre_run by (auto using set_enable_pre_after_write).
  eexists. split; [reflexivity|].
  destruct Hpre as (_ & Hirq & _). simpl. split.
  - destruct (ictlr s !! Z.to_nat (ictlr_instance irq)) as [r|] eqn:Hr.
    + apply (line_after_write_same irq false); [assumption|lia|].
      rewrite list_lookup_alter_eq, Hr. eauto.
    + unfold ictlr_line_enabled. fold (ictlr_instance irq).
      now rewrite !list_lookup_alter_eq, Hr.
  - intros irq' Hirq' Hne _.
    rewrite (line_after_write_other irq irq' false) by (assumption || lia).
    apply (line_after_write_other irq irq' true); assumption || lia.
Qed.

(** C9: for every interrupt number and every starting state, calling
    set_enable(irq, true) twice in a row ends as calling it once does, and
    leaves the legacy controller (its registers and its mapping) exactly as
    one call leaves it; within the preconditions both return and the line
    is enabled. *)
Theorem enable_twice_is_enable_once irq s :
  headers_ok ->
  let once := tegra_ictlr_set_interrupt_enable irq true s in
  let twice := (tegra_ictlr_set_interrupt_enable irq true ;;;
                tegra_ictlr_set_interrupt_enable irq true) s in
  fst twice = fst once /\
  ictlr (snd twice) = ictlr (snd once) /\
  tegra_ictlr_base (snd twice) = tegra_ictlr_base (snd once) /\
  (set_enable_pre irq s -> ictlr_present s ->
   fst once = Done tt /\ ictlr_line_enabled (ictlr (snd once)) irq = true).
Proof.
  intros Hok once twice.
  assert (Hone : once =
    match failed_assertion irq s with
    | Some predicate => (Halt (assert_failed predicate), s)
    | None => (Done tt, after_write s (ictlr_number_of irq)
                          (ier_register true) (ictlr_mask_of irq))
    end) by (now apply set_enable_run).
  assert (Htwo : twice =
    match failed_assertion irq s with
    | Some predicate => (Halt (assert_failed predicate), s)
    | None => (Done tt,
               after_write (after_write s (ictlr_number_of irq)
                              (ier_register true) (ictlr_mask_of irq))
                 (ictlr_number_of irq) (ier_register true) (ictlr_mask_of irq))
    end).
  { subst twice. unfold bind. rewrite (set_enable_run irq true s Hok).
    destruct (failed_assertion irq s) as [predicate|] eqn:Hfail; [reflexivity|].
    rewrite set_enable_run by assumption.
    replace (failed_assertion irq (after_write s (ictlr_number_of irq)
               (ier_register true) (ictlr_mask_of irq)))
      with (failed_assertion irq s) by reflexivity.
    now rewrite Hfail. }
  clearbody once twice. subst once twice.
  destruct (failed_assertion irq s) as [predicate|] eqn:Hfail.
  - simpl. do 3 (split; [reflexivity|]).
    intros Hpre _. rewrite failed_assertion_none in Hfail by assumption.
    discriminate.
  - simpl. split; [reflexivity|]. split.
    + rewrite list_alter_alter_eq. apply list_alter_ext; [|reflexivity].
      intros r _. apply write_reg_twice.
    + split; [reflexivity|]. intros Hpre Hlen. split; [reflexivity|].
      pose proof Hpre as (_ & Hirq & _).
      rewrite (ictlr_number_instance irq Hok Hirq), (ictlr_mask_bit irq Hok Hirq).
      apply (line_after_write_same irq true); [assumption|lia|].
      now apply instance_present.
Qed.

(** ** Routing *)

Lemma int_to_unsigned_nonneg x : 0 <= x -> int_to_unsigned x = x.
Proof.
  intros Hx. unfold int_to_unsigned. destruct (Z.ltb_spec x 0); [lia|reflexivity].
Qed.

Lemma int_to_unsigned_neg x : x < 0 -> int_to_unsigned x = x + 2 ^ 32.
Proof.
  intros Hx. unfold int_to_unsigned. destruct (Z.ltb_spec x 0); [reflexivity|lia].
Qed.

(** The conversion is the value modulo 2^32 on every [int] and on every
    [unsigned int]. *)
Lemma int_to_unsigned_u32 x :
  - 2 ^ 32 <= x < 2 ^ 32 -> int_to_unsigned x = u32 x.
Proof.
  intros Hx. unfold int_to_unsigned, u32. destruct (Z.ltb_spec x 0).
  - replace x with (x + 2 ^ 32 + -1 * 2 ^ 32) at 2 by lia.
    rewrite Z_mod_plus_full. symmetry. apply Z.mod_small. lia.
  - symmetry. apply Z.mod_small. lia.
Qed.

Lemma route_to_xen_run desc priority s :
  tegra_route_irq_to_xen desc priority s =
  if int_to_unsigned (irq desc) <? NR_LOCAL_IRQS
  then (Done tt, after_gic_xen desc priority s)
  else tegra_ictlr_set_interrupt_enable (int_to_unsigned (irq desc)) true
         (after_gic_xen desc priority s).
Proof.
  unfold tegra_route_irq_to_xen, bind, gic_route_irq_to_xen.
  fold (after_gic_xen desc priority s).
  destruct (int_to_unsigned (irq desc) <? NR_LOCAL_IRQS); reflexivity.
Qed.

Lemma route_to_guest_run d virq desc priority s :
  let rc := fst (gic_bind_guest d virq desc priority (gic s)) in
  let s1 := after_gic_guest d virq desc priority s in
  tegra_route_irq_to_guest d virq desc priority s =
  if negb (rc =? 0) then
    (printk (String.append
               "Tegra LIC: Couldn't program GIC to route vIRQ %d (%d)."
               newline) [irq desc; rc] ;;; ret rc) s1
  else if irq desc <? NR_LOCAL_IRQS then (Done rc, s1)
  else (tegra_ictlr_set_interrupt_enable (irq desc)
          (negb (is_hardware_domain d)) ;;; ret rc) s1.
Proof.
  intros rc s1. subst rc s1.
  unfold tegra_route_irq_to_guest, gic_route_irq_to_guest.
  unfold bind at 1. fold (after_gic_guest d virq desc priority s).
  destruct (negb _); [reflexivity|].
  destruct (irq desc <? NR_LOCAL_IRQS); reflexivity.
Qed.

(** C1: when the PIC binds the interrupt (return code 0) and the interrupt
    is at or above the threshold (within the preconditions of the
    controller), route_to_guest returns 0 after the PIC call and one
    register write, to the clear register for the hardware domain and to the
    set register for any other domain, and the enable bit of the interrupt
    is the negation of "the target is the hardware domain". *)
Theorem route_to_guest_sets_enable d virq desc priority s :
  headers_ok -> ictlr_present s ->
  fst (gic_bind_guest d virq desc priority (gic s)) = 0 ->
  set_enable_pre (irq desc) s ->
  exists s',
    tegra_route_irq_to_guest d virq desc priority s = (Done 0, s') /\
    ictlr_line_enabled (ictlr s') (irq desc) = negb (is_hardware_domain d) /\
    trace s' = trace s ++
      [EvGicRouteToGuest d virq desc priority 0;
       EvWritel (2 ^ ictlr_bit (irq desc))
         (ictlr_reg_addr (tegra_ictlr_base s) (ictlr_instance (irq desc))
            (if is_hardware_domain d then TEGRA_ICTLR_CPU_IER_CLR
             else TEGRA_ICTLR_CPU_IER_SET))].
Proof.
  intros Hok Hlen Hrc Hpre. pose proof Hpre as (_ & Hirq & _).
  rewrite route_to_guest_run. simpl. rewrite Hrc. simpl.
  destruct (Z.ltb_spec (irq desc) NR_LOCAL_IRQS) as [Hlt|_]; [lia|].
  unfold bind.
  rewrite (set_enable_pre_run (irq desc) _ (after_gic_guest d virq desc priority s))
    by assumption.
  eexists. split; [reflexivity|]. simpl. split.
  - apply line_after_write_same; [assumption|lia|].
    now apply instance_present.
  - rewrite Hrc, <- app_assoc. simpl.
    now destruct (is_hardware_domain d).
Qed.

(** C4: route_to_hypervisor calls the PIC first. For an interrupt number
    from 0 up to the threshold (excluded) it then returns, the controller
    untouched and no register accessed. At or above the threshold it goes on
    with set_enable(irq, true) whatever the state is; within the
    preconditions of the controller that is one write to the set register,
    after which the line is enabled. The number is taken as an unsigned
    int: a negative desc->irq wraps around by 2^32 and, then at or above
    the threshold, goes to set_enable as well. In every case the PIC call is
    the first new action of the trace. *)
Theorem route_to_xen_pic_then_enable desc priority s :
  headers_ok ->
  (0 <= irq desc < NR_LOCAL_IRQS ->
   exists s',
     tegra_route_irq_to_xen desc priority s = (Done tt, s') /\
     ictlr s' = ictlr s /\ tegra_ictlr_base s' = tegra_ictlr_base s /\
     trace s' = trace s ++ [EvGicRouteToXen desc priority]) /\
  (NR_LOCAL_IRQS <= irq desc ->
   tegra_route_irq_to_xen desc priority s =
   tegra_ictlr_set_interrupt_enable (irq desc) true
     (after_gic_xen desc priority s)) /\
  (irq desc < 0 -> NR_LOCAL_IRQS <= irq desc + 2 ^ 32 ->
   tegra_route_irq_to_xen desc priority s =
   tegra_ictlr_set_interrupt_enable (irq desc + 2 ^ 32) true
     (after_gic_xen desc priority s)) /\
  (set_enable_pre (irq desc) s -> ictlr_present s ->
   exists s',
     tegra_route_irq_to_xen desc priority s = (Done tt, s') /\
     ictlr_line_enabled (ictlr s') (irq desc) = true /\
     trace s' = trace s ++
       [EvGicRouteToXen desc priority;
        EvWritel (2 ^ ictlr_bit (irq desc))
          (ictlr_reg_addr (tegra_ictlr_base s) (ictlr_instance (irq desc))
             TEGRA_ICTLR_CPU_IER_SET)]) /\
  (forall o s',
     tegra_route_irq_to_xen desc priority s = (o, s') ->
     exists rest, trace s' = trace s ++ EvGicRouteToXen desc priority :: rest).
Proof.
  intros Hok. pose proof nr_local_range Hok as Hnr.
  split; [|split; [|split; [|split]]].
  - intros Hlocal. rewrite route_to_xen_run.
    rewrite int_to_unsigned_nonneg by lia.
    destruct (Z.ltb_spec (irq desc) NR_LOCAL_IRQS) as [_|Hge]; [|lia].
    eexists. now repeat split.
  - intros Hshared. rewrite route_to_xen_run.
    rewrite int_to_unsigned_nonneg by lia.
    destruct (Z.ltb_spec (irq desc) NR_LOCAL_IRQS) as [Hlt|_]; [lia|].
    reflexivity.
  - intros Hneg Hwrap. rewrite route_to_xen_run.
    rewrite int_to_unsigned_neg by lia.
    destruct (Z.ltb_spec (irq desc + 2 ^ 32) NR_LOCAL_IRQS) as [Hlt|_]; [lia|].
    reflexivity.
  - intros Hpre Hlen. pose proof Hpre as (_ & Hirq & _).
    rewrite route_to_xen_run. rewrite int_to_unsigned_nonneg by lia.
    destruct (Z.ltb_spec (irq desc) NR_LOCAL_IRQS) as [Hlt|_]; [lia|].
    rewrite (set_enable_pre_run (irq desc) true (after_gic_xen desc priority s))
      by assumption.
    eexists. split; [reflexivity|]. simpl. split.
    + apply (line_after_write_same (irq desc) true); [assumption|lia|].
      now apply instance_present.
    + now rewrite <- app_assoc.
  - intros o s'. rewrite route_to_xen_run.
    destruct (_ <? _).
    + intros Hrun. injection Hrun as <- <-. now exists [].
    + rewrite set_enable_run by assumption.
      destruct (failed_assertion _ _); intros Hrun; injection Hrun as <- <-.
      * now exists [].
      * simpl. rewrite <- app_assoc. eauto.
Qed.

(** C5: when the PIC fails to bind (return code not 0), route_to_guest
    logs the failure and returns that code unchanged; the controller and
    its mapping are as before the call and no register is read or written.
    No other path returns an error: what route_to_guest returns is always
    the code of the PIC, and initialization returns 0 whenever it
    returns. *)
Theorem route_to_guest_pic_failure d virq desc priority s :
  let rc := fst (gic_bind_guest d virq desc priority (gic s)) in
  (rc <> 0 ->
   exists s',
     tegra_route_irq_to_guest d virq desc priority s = (Done rc, s') /\
     ictlr s' = ictlr s /\ tegra_ictlr_base s' = tegra_ictlr_base s /\
     trace s' = trace s ++
       [EvGicRouteToGuest d virq desc priority rc;
        EvPrintk (String.append
                    "Tegra LIC: Couldn't program GIC to route vIRQ %d (%d)."
                    newline) [irq desc; rc]]) /\
  (forall r s',
     tegra_route_irq_to_guest d virq desc priority s = (Done r, s') ->
     r = rc) /\
  (forall r s0 s',
     tegra_initialize_legacy_interrupt_controller s0 = (Done r, s') ->
     r = 0).
Proof.
  intros rc. split; [|split].
  - intros Hrc. rewrite route_to_guest_run. simpl. fold rc.
    destruct (Z.eqb_spec rc 0) as [Hz|_]; [contradiction|]. simpl.
    eexists. split; [reflexivity|]. simpl. fold rc.
    now rewrite <- app_assoc.
  - intros r s'. rewrite route_to_guest_run. simpl. fold rc.
    destruct (negb (rc =? 0)); [intros [= <- _]; reflexivity|].
    destruct (irq desc <? NR_LOCAL_IRQS); [intros [= <- _]; reflexivity|].
    unfold bind.
    destruct (tegra_ictlr_set_interrupt_enable _ _ _) as [[[]|why] s1];
      [intros [= <- _]; reflexivity|discriminate].
  - intros r s0 s'. unfold tegra_initialize_legacy_interrupt_controller.
    unfold bind at 1 2 3 4. simpl.
    destruct (vmap_result _ _ =? 0); simpl; [discriminate|].
    unfold bind at 1.
    destruct (for_loop _ _ _ _) as [[[]|why] s1];
      [intros [= <- _]; reflexivity|discriminate].
Qed.

(** ** Initialization *)

Lemma init_loop_body_run i s :
  headers_ok -> tegra_ictlr_base s <> 0 -> 0 <= i < TEGRA_ICTLR_COUNT ->
  init_loop_body i s = (Done tt, after_reset s i).
Proof.
  intros Hok Hb Hi. unfold init_loop_body, bind, load_tegra_ictlr_base, writel.
  simpl tegra_ictlr_base. simpl ictlr. simpl gic. simpl trace.
  change (u32 (Z.lnot 0)) with (2 ^ 32 - 1).
  fold (ictlr_reg_addr (tegra_ictlr_base s) i TEGRA_ICTLR_CPU_IER_CLR).
  fold (ictlr_reg_addr (tegra_ictlr_base s) i TEGRA_ICTLR_CPU_IEP_CLASS).
  rewrite !ictlr_mmio_write_reg
    by (assumption || apply (ier_clr_range Hok) || apply (iep_class_range Hok)).
  reflexivity.
Qed.

Lemma init_loop_run n i s :
  headers_ok -> tegra_ictlr_base s <> 0 ->
  0 <= i -> i + Z.of_nat n <= TEGRA_ICTLR_COUNT ->
  for_loop n i init_loop_body s = (Done tt, after_resets n i s).
Proof.
  intros Hok. revert i s. induction n as [|n IH]; intros i s Hb Hi Hn.
  - reflexivity.
  - simpl. unfold bind. rewrite init_loop_body_run by (assumption || lia).
    apply IH; [exact Hb|lia|lia].
Qed.

Lemma after_resets_base n i s :
  tegra_ictlr_base (after_resets n i s) = tegra_ictlr_base s /\
  gic (after_resets n i s) = gic s.
Proof.
  revert i s. induction n as [|n IH]; intros i s; [easy|].
  simpl. destruct (IH (i + 1) (after_reset s i)) as [-> ->]. easy.
Qed.

Lemma after_resets_trace n i s :
  trace (after_resets n i s) =
  trace s ++ flat_map (reset_writes (tegra_ictlr_base s)) (seqZ i (Z.of_nat n)).
Proof.
  revert i s. induction n as [|n IH]; intros i s.
  - simpl. now rewrite app_nil_r.
  - simpl after_resets. rewrite IH.
    rewrite (seqZ_cons i (Z.of_nat (S n))) by lia.
    replace (Z.pred (Z.of_nat (S n))) with (Z.of_nat n) by lia.
    replace (Z.succ i) with (i + 1) by lia.
    simpl. now rewrite <- !app_assoc.
Qed.

Lemma after_reset_lookup s i j :
  headers_ok ->
  ictlr (after_reset s i) !! j =
  if bool_decide (j = Z.to_nat i) then reset_regs <$> ictlr s !! j
  else ictlr s !! j.
Proof.
  intros Hok. simpl. case_bool_decide as Hj.
  - subst j. rewrite !list_lookup_alter_eq.
    destruct (ictlr s !! Z.to_nat i) as [r|]; simpl; [|reflexivity].
    rewrite write_reg_clr, write_reg_class by assumption. reflexivity.
  - rewrite !list_lookup_alter_ne by congruence. reflexivity.
Qed.

Lemma after_resets_lookup n i s j :
  headers_ok -> 0 <= i ->
  ictlr (after_resets n i s) !! j =
  if bool_decide (Z.to_nat i <= j < Z.to_nat i + n)%nat
  then reset_regs <$> ictlr s !! j
  else ictlr s !! j.
Proof.
  intros Hok. revert i s. induction n as [|n IH]; intros i s Hi.
  - simpl. case_bool_decide; [lia|reflexivity].
  - simpl after_resets. rewrite IH by lia. rewrite after_reset_lookup by assumption.
    repeat case_bool_decide; try reflexivity; lia.
Qed.

(** All instances reset: the registers the whole loop leaves. *)
Lemma after_resets_all s :
  headers_ok -> ictlr_present s ->
  ictlr (after_resets (Z.to_nat TEGRA_ICTLR_COUNT) 0 s) = reset_regs <$> ictlr s.
Proof.
  intros Hok Hlen. apply list_eq. intros j.
  rewrite after_resets_lookup by (assumption || lia).
  rewrite list_lookup_fmap. case_bool_decide as Hj; [reflexivity|].
  rewrite lookup_ge_None_2; [reflexivity|]. rewrite Hlen. lia.
Qed.

Lemma reset_regs_disabled r k :
  0 <= k < 32 -> Z.testbit (cpu_ier (reset_regs r)) k = false.
Proof.
  intros Hk. simpl. rewrite Z.ldiff_spec.
  change (2 ^ 32 - 1) with (Z.ones 32).
  rewrite Z.ones_spec_low by lia. apply andb_false_r.
Qed.

Lemma initialize_run s :
  headers_ok ->
  let size := TEGRA_ICTLR_SIZE * TEGRA_ICTLR_COUNT in
  let va := vmap_result TEGRA_ICTLR_BASE size in
  let mapped :=
    {| tegra_ictlr_base := va; ictlr := ictlr s; gic := gic s;
       trace := trace s ++ [EvIoremap TEGRA_ICTLR_BASE size va] |} in
  tegra_initialize_legacy_interrupt_controller s =
  if va =? 0 then
    (Halt (panicked (String.append
             "Failed to map in the Tegra legacy interrupt controller!"
             newline)), mapped)
  else (Done 0, after_resets (Z.to_nat TEGRA_ICTLR_COUNT) 0 mapped).
Proof.
  intros Hok size va mapped.
  unfold tegra_initialize_legacy_interrupt_controller.
  unfold bind at 1 2 3 4. simpl. fold size. fold va. fold mapped.
  destruct (Z.eqb_spec va 0) as [Hz|Hnz]; simpl; [reflexivity|].
  unfold bind at 1. fold init_loop_body.
  pose proof ictlr_count_pos Hok.
  rewrite init_loop_run by (assumption || lia). reflexivity.
Qed.

(** C7: initialization maps the register window; when the mapping fails it
    halts in a panic, no register written. Otherwise it returns 0 after
    writing, for each of the TEGRA_ICTLR_COUNT instances in turn, all-ones
    to the clear register and all-zeros to the class register, and then
    every line of every instance is disabled and every class register is
    zero. *)
Theorem initialization_resets_every_instance s :
  headers_ok -> ictlr_present s ->
  let size := TEGRA_ICTLR_SIZE * TEGRA_ICTLR_COUNT in
  let va := vmap_result TEGRA_ICTLR_BASE size in
  (va = 0 ->
   exists message s',
     tegra_initialize_legacy_interrupt_controller s =
     (Halt (panicked message), s') /\
     ictlr s' = ictlr s /\
     trace s' = trace s ++ [EvIoremap TEGRA_ICTLR_BASE size va]) /\
  (va <> 0 ->
   exists s',
     tegra_initialize_legacy_interrupt_controller s = (Done 0, s') /\
     tegra_ictlr_base s' = va /\
     trace s' = trace s ++
       EvIoremap TEGRA_ICTLR_BASE size va ::
       flat_map
         (fun i =>
            [EvWritel (2 ^ 32 - 1) (va + TEGRA_ICTLR_SIZE * i
                                    + TEGRA_ICTLR_CPU_IER_CLR);
             EvWritel 0 (va + TEGRA_ICTLR_SIZE * i
                         + TEGRA_ICTLR_CPU_IEP_CLASS)])
         (seqZ 0 TEGRA_ICTLR_COUNT) /\
     ictlr_present s' /\
     (forall r, r ∈ ictlr s' ->
        cpu_iep_class r = 0 /\
        forall k, 0 <= k < 32 -> Z.testbit (cpu_ier r) k = false) /\
     (forall irq, NR_LOCAL_IRQS <= irq ->
        ictlr_line_enabled (ictlr s') irq = false)).
Proof.
  intros Hok Hlen size va. rewrite initialize_run by assumption.
  fold size. fold va. pose proof ictlr_count_pos Hok as Hcount.
  destruct (Z.eqb_spec va 0) as [Hz|Hnz].
  - split; [|contradiction]. intros _. eexists _, _. now repeat split.
  - split; [contradiction|]. intros _. eexists. split; [reflexivity|].
    set (mapped := {| tegra_ictlr_base := va; ictlr := ictlr s; gic := gic s;
                      trace := trace s ++ [EvIoremap TEGRA_ICTLR_BASE size va] |}).
    assert (Hregs : ictlr (after_resets (Z.to_nat TEGRA_ICTLR_COUNT) 0 mapped)
                    = reset_regs <$> ictlr s)
      by (now apply (after_resets_all mapped)).
    split; [apply (after_resets_base _ 0 mapped)|].
    split.
    { rewrite after_resets_trace. simpl. rewrite <- app_assoc. simpl.
      rewrite Z2Nat.id by lia. reflexivity. }
    split.
    { unfold ictlr_present. rewrite Hregs, length_fmap. exact Hlen. }
    rewrite Hregs. split.
    + intros r Hr. apply list_elem_of_fmap in Hr as (r0 & -> & _).
      split; [reflexivity|]. intros k Hk. now apply reset_regs_disabled.
    + intros irq Hirq. unfold ictlr_line_enabled. rewrite list_lookup_fmap.
      destruct (ictlr s !! _) as [r0|]; simpl; [|reflexivity].
      rewrite Z.ldiff_spec. change (2 ^ 32 - 1) with (Z.ones 32).
      pose proof irqs_per_ictlr_range Hok.
      pose proof (Z.mod_pos_bound (irq - NR_LOCAL_IRQS) TEGRA_IRQS_PER_ICTLR).
      rewrite Z.ones_spec_low by lia. apply andb_false_r.
Qed.

(** ** What routing leaves alone *)

Lemma alter_ier_class_regs enabled val n (hw : list ictlr_regs) :
  headers_ok ->
  cpu_iep_class <$> alter (ictlr_write_reg (ier_register enabled) val) n hw =
  cpu_iep_class <$> hw.
Proof.
  intros Hok. apply list_eq. intros j. rewrite !list_lookup_fmap.
  destruct (decide (n = j)) as [->|Hne].
  - rewrite list_lookup_alter_eq. destruct (hw !! j) as [r|]; simpl; [|reflexivity].
    now rewrite write_reg_ier_class.
  - now rewrite list_lookup_alter_ne.
Qed.

Lemma set_enable_keeps irq enabled s o s' :
  headers_ok ->
  tegra_ictlr_set_interrupt_enable irq enabled s = (o, s') ->
  class_regs s' = class_regs s /\ tegra_ictlr_base s' = tegra_ictlr_base s.
Proof.
  intros Hok. rewrite set_enable_run by assumption.
  destruct (failed_assertion irq s); intros [= <- <-]; [easy|].
  split; [|reflexivity]. unfold class_regs. simpl.
  now apply alter_ier_class_regs.
Qed.

Lemma run_call_keeps c s o s' :
  headers_ok -> run_call c s = (o, s') ->
  class_regs s' = class_regs s /\ tegra_ictlr_base s' = tegra_ictlr_base s.
Proof.
  intros Hok. destruct c as [desc priority|d virq desc priority]; simpl.
  - rewrite route_to_xen_run.
    destruct (_ <? NR_LOCAL_IRQS); [intros [= <- <-]; easy|].
    intros Hrun. now apply set_enable_keeps in Hrun.
  - unfold bind at 1. rewrite route_to_guest_run. simpl.
    destruct (negb _); [intros [= <- <-]; easy|].
    destruct (irq desc <? NR_LOCAL_IRQS); [intros [= <- <-]; easy|].
    unfold bind.
    destruct (tegra_ictlr_set_interrupt_enable _ _ _) as [[[]|why] s1] eqn:Hset;
      intros [= <- <-]; now apply set_enable_keeps in Hset.
Qed.

Lemma run_calls_keeps cs s o s' :
  headers_ok -> run_calls cs s = (o, s') ->
  class_regs s' = class_regs s /\ tegra_ictlr_base s' = tegra_ictlr_base s.
Proof.
  intros Hok. revert s. induction cs as [|c cs IH]; intros s; simpl.
  - intros [= <- <-]. easy.
  - unfold bind. destruct (run_call c s) as [[[]|why] s1] eqn:Hc.
    + intros Hrest. apply IH in Hrest as [-> ->]. now apply run_call_keeps in Hc.
    + intros [= <- <-]. now apply run_call_keeps in Hc.
Qed.

Lemma initialize_done s r s1 :
  headers_ok -> ictlr_present s ->
  tegra_initialize_legacy_interrupt_controller s = (Done r, s1) ->
  ictlr s1 = reset_regs <$> ictlr s.
Proof.
  intros Hok Hlen. rewrite initialize_run by assumption.
  destruct (_ =? 0); [discriminate|]. intros [= _ <-].
  now rewrite after_resets_all.
Qed.

(** C10: a call of set_enable that returns has made exactly one register
    write, to the set or clear register of one instance; the registers of
    every other instance and the class register of every instance are as
    before (a call that halts changes nothing). Hence any sequence of
    route_to_hypervisor and route_to_guest calls, run to its end or to a
    halt, leaves every class register as it was, and after initialization
    every class register stays zero. *)
Theorem routing_never_touches_class_registers :
  headers_ok ->
  (forall irq enabled s o s',
     tegra_ictlr_set_interrupt_enable irq enabled s = (o, s') ->
     (o = Done tt ->
      exists val,
        trace s' = trace s ++
          [EvWritel val (ictlr_reg_addr (tegra_ictlr_base s)
                           (ictlr_number_of irq) (ier_register enabled))]) /\
     (forall j, j <> Z.to_nat (ictlr_number_of irq) ->
        ictlr s' !! j = ictlr s !! j) /\
     cpu_iep_class <$> ictlr s' = cpu_iep_class <$> ictlr s /\
     length (ictlr s') = length (ictlr s)) /\
  (forall cs s o s',
     run_calls cs s = (o, s') ->
     cpu_iep_class <$> ictlr s' = cpu_iep_class <$> ictlr s) /\
  (forall s0 s1 cs o s',
     ictlr_present s0 ->
     tegra_initialize_legacy_interrupt_controller s0 = (Done 0, s1) ->
     run_calls cs s1 = (o, s') ->
     forall r, r ∈ ictlr s' -> cpu_iep_class r = 0).
Proof.
  intros Hok. split; [|split].
  - intros irq enabled s o s' Hrun.
    pose proof (set_enable_keeps _ _ _ _ _ Hok Hrun) as [Hclass _].
    rewrite set_enable_run in Hrun by assumption.
    destruct (failed_assertion irq s); injection Hrun as <- <-.
    + split; [discriminate|]. easy.
    + split; [intros _; eexists; reflexivity|].
      split; [|split; [exact Hclass|apply length_alter]].
      intros j Hj. simpl. now rewrite list_lookup_alter_ne.
  - intros cs s o s' Hrun. now apply run_calls_keeps in Hrun.
  - intros s0 s1 cs o s' Hlen Hinit Hrun r Hr.
    apply run_calls_keeps in Hrun as [Hclass _]; [|assumption].
    apply (initialize_done s0 0 s1 Hok Hlen) in Hinit.
    unfold class_regs in Hclass. rewrite Hinit, <- list_fmap_compose in Hclass.
    apply (list_elem_of_fmap_2 cpu_iep_class) in Hr. rewrite Hclass in Hr.
    apply list_elem_of_fmap in Hr as (r0 & -> & _). reflexivity.
Qed.

(** ** Routability *)

Lemma irq_belongs_to_spec table rirq :
  irq_belongs_to table rirq = true <-> compatible (controller rirq) ∈ table.
Proof.
  induction table as [|compat rest IH]; simpl.
  - split; [discriminate|]. intros H. now apply elem_of_nil in H.
  - rewrite elem_of_cons, <- IH. unfold dt_device_is_compatible.
    destruct (String.eqb_spec (compatible (controller rirq)) compat); intuition.
Qed.

Lemma irq_belongs_to_perm table table' rirq :
  table ≡ₚ table' -> irq_belongs_to table rirq = irq_belongs_to table' rirq.
Proof.
  intros Hperm. apply eq_true_iff_eq. rewrite !irq_belongs_to_spec.
  now rewrite Hperm.
Qed.

(** C2: is_routable answers true when the controller of the descriptor is
    the primary interrupt controller, true when its compatibility string is
    exactly "nvidia,tegra124-ictlr" or "nvidia,tegra210-ictlr", and false for
    every other controller; it is a total function of the descriptor alone
    (no state is read or changed and there is no error result), and listing
    the strings in another order gives the same answer. *)
Theorem routable_classification rirq :
  (tegra_irq_is_routable rirq = true <->
   node_ptr (controller rirq) = node_ptr dt_interrupt_controller \/
   compatible (controller rirq) = "nvidia,tegra124-ictlr"%string \/
   compatible (controller rirq) = "nvidia,tegra210-ictlr"%string) /\
  (forall table,
     table ≡ₚ tegra_interrupt_compat ->
     irq_is_routable_with table rirq = tegra_irq_is_routable rirq).
Proof.
  split.
  - unfold tegra_irq_is_routable, tegra_irq_belongs_to_ictlr.
    destruct (Z.eqb_spec (node_ptr (controller rirq))
                (node_ptr dt_interrupt_controller)) as [Heq|Hne].
    { intuition. }
    destruct (irq_belongs_to tegra_interrupt_compat rirq) eqn:Hb.
    + apply irq_belongs_to_spec in Hb. unfold tegra_interrupt_compat in Hb.
      rewrite !elem_of_cons, elem_of_nil in Hb. intuition.
    + split; [discriminate|]. intros [Hp|Hc]; [contradiction|].
      assert (irq_belongs_to tegra_interrupt_compat rirq = true) as Ht;
        [|congruence].
      apply irq_belongs_to_spec. unfold tegra_interrupt_compat.
      rewrite !elem_of_cons, elem_of_nil. intuition.
  - intros table Hperm.
    unfold tegra_irq_is_routable, tegra_irq_belongs_to_ictlr, irq_is_routable_with.
    now rewrite (irq_belongs_to_perm table tegra_interrupt_compat).
Qed.

End Properties.

(** * How the operations compose *)

Section Composition.

Context `{HDR : headers} `{COL : collaborators}.

(** ** Two writes to the enable registers of one instance *)

Lemma ictlr_regs_eq r r' :
  cpu_ier r = cpu_ier r' -> cpu_iep_class r = cpu_iep_class r' -> r = r'.
Proof. destruct r, r'; simpl; intros -> ->; reflexivity. Qed.

(** Of two writes of the same mask the second decides. *)
Lemma write_reg_absorb e1 e2 val r :
  headers_ok ->
  ictlr_write_reg (ier_register e2) val (ictlr_write_reg (ier_register e1) val r)
  = ictlr_write_reg (ier_register e2) val r.
Proof.
  intros Hok. apply ictlr_regs_eq.
  - apply Z.bits_inj'. intros j _. rewrite !write_reg_ier_bit by assumption.
    destruct e1, e2, (Z.testbit (cpu_ier r) j), (Z.testbit val j); reflexivity.
  - now rewrite !write_reg_ier_class.
Qed.

(** Writes of two different one-bit masks can be swapped. *)
Lemma write_reg_swap e1 e2 b1 b2 r :
  headers_ok -> 0 <= b1 -> 0 <= b2 -> b1 <> b2 ->
  ictlr_write_reg (ier_register e2) (2 ^ b2)
    (ictlr_write_reg (ier_register e1) (2 ^ b1) r)
  = ictlr_write_reg (ier_register e1) (2 ^ b1)
      (ictlr_write_reg (ier_register e2) (2 ^ b2) r).
Proof.
  intros Hok H1 H2 Hne. apply ictlr_regs_eq.
  - apply Z.bits_inj'. intros j _. rewrite !write_reg_ier_bit by assumption.
    rewrite !bit_testbit by assumption.
    destruct (Z.eqb_spec j b1), (Z.eqb_spec j b2); [congruence| | |];
      destruct e1, e2, (Z.testbit (cpu_ier r) j); reflexivity.
  - now rewrite !write_reg_ier_class.
Qed.

Lemma instance_nonneg irq :
  headers_ok -> NR_LOCAL_IRQS <= irq -> 0 <= ictlr_instance irq.
Proof.
  intros Hok Hirq. unfold ictlr_instance. pose proof irqs_per_ictlr_range Hok.
  apply Z.div_pos; lia.
Qed.

(** A violated precondition halts the call where it started. *)
Lemma set_enable_asserts_halt irq enabled s :
  headers_ok ->
  tegra_ictlr_base s = 0 \/ irq < NR_LOCAL_IRQS \/
  TEGRA_ICTLR_COUNT <= ictlr_number_of irq ->
  exists predicate,
    tegra_ictlr_set_interrupt_enable irq enabled s =
    (Halt (assert_failed predicate), s).
Proof.
  intros Hok Hbad. rewrite set_enable_run by assumption.
  unfold failed_assertion.
  destruct (Z.eqb_spec (tegra_ictlr_base s) 0); simpl; [eauto|].
  destruct (Z.ltb_spec (ictlr_number_of irq) TEGRA_ICTLR_COUNT); simpl;
    [|eauto].
  destruct (Z.leb_spec NR_LOCAL_IRQS irq); simpl; [lia|eauto].
Qed.

(** A call that returns passed the three checks. *)
Lemma set_enable_asserts_before_done irq enabled s s' :
  headers_ok ->
  tegra_ictlr_set_interrupt_enable irq enabled s = (Done tt, s') ->
  tegra_ictlr_base s <> 0 /\ NR_LOCAL_IRQS <= irq /\
  ictlr_number_of irq < TEGRA_ICTLR_COUNT.
Proof.
  intros Hok. rewrite set_enable_run by assumption. unfold failed_assertion.
  destruct (Z.eqb_spec (tegra_ictlr_base s) 0); simpl; [discriminate|].
  destruct (Z.ltb_spec (ictlr_number_of irq) TEGRA_ICTLR_COUNT); simpl;
    [|discriminate].
  destruct (Z.leb_spec NR_LOCAL_IRQS irq); simpl; [|discriminate].
  intros _. now repeat split.
Qed.

(** X1: a guest binding of a local interrupt that the PIC accepts returns 0
    without any access to the legacy controller, mapped or not: the
    controller and its mapping are as before and the PIC call is the only
    new action. *)
Theorem route_to_guest_local_bypasses_ictlr d virq desc priority s :
  fst (gic_bind_guest d virq desc priority (gic s)) = 0 ->
  irq desc < NR_LOCAL_IRQS ->
  exists s',
    tegra_route_irq_to_guest d virq desc priority s = (Done 0, s') /\
    ictlr s' = ictlr s /\
    tegra_ictlr_base s' = tegra_ictlr_base s /\
    gic s' = snd (gic_bind_guest d virq desc priority (gic s)) /\
    trace s' = trace s ++ [EvGicRouteToGuest d virq desc priority 0].
Proof.
  intros Hrc Hlocal. rewrite route_to_guest_run. simpl. rewrite Hrc. simpl.
  destruct (Z.ltb_spec (irq desc) NR_LOCAL_IRQS) as [_|Hge]; [|lia].
  eexists. split; [reflexivity|]. simpl. now rewrite Hrc.
Qed.

(** X2: routing an interrupt at or above the threshold while the window is
    not mapped, or one whose instance index is not below the instance
    count, halts on a failed assertion only after the PIC has bound the
    interrupt: the binding stays in the PIC, and no register is written. *)
Theorem route_halts_after_pic_binding d virq desc priority s :
  headers_ok -> NR_LOCAL_IRQS <= irq desc ->
  tegra_ictlr_base s = 0 \/ TEGRA_ICTLR_COUNT <= ictlr_number_of (irq desc) ->
  (exists predicate,
     tegra_route_irq_to_xen desc priority s =
     (Halt (assert_failed predicate),
      {| tegra_ictlr_base := tegra_ictlr_base s; ictlr := ictlr s;
         gic := gic_bind_xen desc priority (gic s);
         trace := trace s ++ [EvGicRouteToXen desc priority] |})) /\
  (fst (gic_bind_guest d virq desc priority (gic s)) = 0 ->
   exists predicate,
     tegra_route_irq_to_guest d virq desc priority s =
     (Halt (assert_failed predicate),
      {| tegra_ictlr_base := tegra_ictlr_base s; ictlr := ictlr s;
         gic := snd (gic_bind_guest d virq desc priority (gic s));
         trace := trace s ++ [EvGicRouteToGuest d virq desc priority 0] |})).
Proof.
  intros Hok Hirq Hbad. pose proof nr_local_range Hok as Hnr. split.
  - rewrite route_to_xen_run. rewrite int_to_unsigned_nonneg by lia.
    destruct (Z.ltb_spec (irq desc) NR_LOCAL_IRQS) as [Hlt|_]; [lia|].
    destruct (set_enable_asserts_halt (irq desc) true
                (after_gic_xen desc priority s) Hok) as [p Hp]; [tauto|].
    exists p. exact Hp.
  - intros Hrc. rewrite route_to_guest_run. simpl. rewrite Hrc. simpl.
    destruct (Z.ltb_spec (irq desc) NR_LOCAL_IRQS) as [Hlt|_]; [lia|].
    unfold bind.
    destruct (set_enable_asserts_halt (irq desc) (negb (is_hardware_domain d))
                (after_gic_guest d virq desc priority s) Hok) as [p Hp];
      [tauto|].
    rewrite Hp. exists p. unfold after_gic_guest. now rewrite Hrc.
Qed.

(** X3: of two consecutive calls of set_enable for the same interrupt the
    last one decides: the controller is left exactly as the second call
    alone leaves it, and the line has the value the second call asked
    for. *)
Theorem set_enable_last_call_wins irq (e1 e2 : bool) s :
  headers_ok -> set_enable_pre irq s ->
  exists s12 s2,
    (tegra_ictlr_set_interrupt_enable irq e1 ;;;
     tegra_ictlr_set_interrupt_enable irq e2) s = (Done tt, s12) /\
    tegra_ictlr_set_interrupt_enable irq e2 s = (Done tt, s2) /\
    ictlr s12 = ictlr s2 /\
    (ictlr_present s -> ictlr_line_enabled (ictlr s12) irq = e2).
Proof.
  intros Hok Hpre. unfold bind.
  rewrite (set_enable_pre_run irq e1 s Hok Hpre).
  rewrite (set_enable_pre_run irq e2 _ Hok
             (set_enable_pre_after_write irq s _ _ _ Hpre)).
  rewrite (set_enable_pre_run irq e2 s Hok Hpre).
  eexists _, _. split; [reflexivity|]. split; [reflexivity|].
  assert (Hregs : ictlr (after_write
                    (after_write s (ictlr_instance irq) (ier_register e1)
                       (2 ^ ictlr_bit irq))
                    (ictlr_instance irq) (ier_register e2) (2 ^ ictlr_bit irq))
                  = ictlr (after_write s (ictlr_instance irq) (ier_register e2)
                             (2 ^ ictlr_bit irq))).
  { simpl. rewrite list_alter_alter_eq. apply list_alter_ext; [|reflexivity].
    intros r _. now apply write_reg_absorb. }
  split; [exact Hregs|]. intros Hlen. rewrite Hregs. simpl.
  destruct Hpre as (Hb & Hirq & Hinst).
  apply line_after_write_same; [assumption|lia|].
  apply instance_present; [assumption|assumption|]. now repeat split.
Qed.

(** X4: calls of set_enable for two different interrupts can be made in
    either order: both orders return and leave the controller in the same
    state, whether the two lines share an instance or not. *)
Theorem set_enable_commutes irq1 (e1 : bool) irq2 (e2 : bool) s :
  headers_ok -> set_enable_pre irq1 s -> set_enable_pre irq2 s ->
  irq1 <> irq2 ->
  exists s12 s21,
    (tegra_ictlr_set_interrupt_enable irq1 e1 ;;;
     tegra_ictlr_set_interrupt_enable irq2 e2) s = (Done tt, s12) /\
    (tegra_ictlr_set_interrupt_enable irq2 e2 ;;;
     tegra_ictlr_set_interrupt_enable irq1 e1) s = (Done tt, s21) /\
    ictlr s12 = ictlr s21 /\
    tegra_ictlr_base s12 = tegra_ictlr_base s21.
Proof.
  intros Hok Hpre1 Hpre2 Hne. unfold bind.
  rewrite (set_enable_pre_run irq1 e1 s Hok Hpre1).
  rewrite (set_enable_pre_run irq2 e2 _ Hok
             (set_enable_pre_after_write irq2 s _ _ _ Hpre2)).
  rewrite (set_enable_pre_run irq2 e2 s Hok Hpre2).
  rewrite (set_enable_pre_run irq1 e1 _ Hok
             (set_enable_pre_after_write irq1 s _ _ _ Hpre1)).
  eexists _, _. split; [reflexivity|]. split; [reflexivity|].
  split; [|reflexivity]. simpl.
  destruct Hpre1 as (_ & Hirq1 & _), Hpre2 as (_ & Hirq2 & _).
  pose proof (instance_nonneg irq1 Hok (proj1 Hirq1)).
  pose proof (instance_nonneg irq2 Hok (proj1 Hirq2)).
  destruct (Z.eq_dec (ictlr_instance irq1) (ictlr_instance irq2)) as [Hi|Hi].
  - rewrite Hi, !list_alter_alter_eq. apply list_alter_ext; [|reflexivity].
    intros r _. simpl. apply write_reg_swap.
    + assumption.
    + apply (ictlr_bit_range irq1 Hok).
    + apply (ictlr_bit_range irq2 Hok).
    + intros Hb. apply Hne. now apply ictlr_instance_bit_inj.
  - apply list_alter_alter_ne. lia.
Qed.

(** X5: set_enable returns exactly for the lines of the controller: for an
    unsigned interrupt number the call returns if and only if the window is
    mapped and the number lies between the threshold (included) and the
    threshold plus lines-per-instance times the instance count
    (excluded). Every other call halts. *)
Theorem set_enable_accepts_exactly_controller_lines irq enabled s :
  headers_ok -> 0 <= irq < 2 ^ 32 ->
  ((exists s', tegra_ictlr_set_interrupt_enable irq enabled s = (Done tt, s'))
   <->
   tegra_ictlr_base s <> 0 /\
   NR_LOCAL_IRQS <= irq <
   NR_LOCAL_IRQS + TEGRA_IRQS_PER_ICTLR * TEGRA_ICTLR_COUNT).
Proof.
  intros Hok Hrange. pose proof irqs_per_ictlr_range Hok as Hper.
  split.
  - intros [s' Hrun].
    destruct (set_enable_asserts_before_done irq enabled s s' Hok Hrun)
      as (Hb & Hirq & Hn).
    rewrite ictlr_number_instance in Hn by (assumption || lia).
    split; [assumption|]. split; [assumption|].
    unfold ictlr_instance in Hn.
    destruct (Z.lt_ge_cases (irq - NR_LOCAL_IRQS)
                (TEGRA_IRQS_PER_ICTLR * TEGRA_ICTLR_COUNT)) as [Hlt|Hge]; [lia|].
    apply (Z.div_le_lower_bound _ _ _ (proj1 Hper)) in Hge. lia.
  - intros (Hb & Hirq). eexists. apply set_enable_pre_run; [assumption|].
    split; [assumption|]. split; [lia|].
    unfold ictlr_instance. apply Z.div_lt_upper_bound; lia.
Qed.

(** X6: the unsigned subtraction wraps around for a local interrupt, so
    that its instance index is huge: when the lines of the controller have
    32-bit numbers, a local interrupt passed to set_enable on a mapped
    window fails the check of the instance index, and no call ever fails
    the third check, irq >= NR_LOCAL_IRQS. *)
Theorem local_irq_fails_instance_check irq enabled s :
  headers_ok ->
  NR_LOCAL_IRQS + TEGRA_IRQS_PER_ICTLR * TEGRA_ICTLR_COUNT <= 2 ^ 32 ->
  0 <= irq < 2 ^ 32 ->
  (irq < NR_LOCAL_IRQS -> tegra_ictlr_base s <> 0 ->
   tegra_ictlr_set_interrupt_enable irq enabled s =
   (Halt (assert_failed "ictlr_number < TEGRA_ICTLR_COUNT"), s)) /\
  (forall s',
     tegra_ictlr_set_interrupt_enable irq enabled s <>
     (Halt (assert_failed "irq >= NR_LOCAL_IRQS"), s')).
Proof.
  intros Hok Hfit Hrange. pose proof irqs_per_ictlr_range Hok as Hper.
  pose proof nr_local_range Hok as Hnr.
  assert (Hwrap : irq < NR_LOCAL_IRQS ->
                  TEGRA_ICTLR_COUNT <= ictlr_number_of irq).
  { intros Hlocal. unfold ictlr_number_of, u32.
    replace (irq - NR_LOCAL_IRQS) with (irq - NR_LOCAL_IRQS + 2 ^ 32 + -1 * 2 ^ 32)
      by lia.
    rewrite Z_mod_plus_full. rewrite Z.mod_small by lia.
    apply Z.div_le_lower_bound; lia. }
  rewrite set_enable_run by assumption. unfold failed_assertion.
  destruct (Z.eqb_spec (tegra_ictlr_base s) 0) as [Hz|Hnz]; simpl.
  { split; [contradiction|]. intros s'. discriminate. }
  destruct (Z.ltb_spec (ictlr_number_of irq) TEGRA_ICTLR_COUNT) as [Hlt|Hge];
    simpl.
  - destruct (Z.leb_spec NR_LOCAL_IRQS irq) as [Hle|Hgt]; simpl.
    + split; [lia|]. intros s'. discriminate.
    + specialize (Hwrap Hgt). lia.
  - split; [reflexivity|]. intros s'. discriminate.
Qed.

(** ** Sequences of routing calls *)

(** One call of set_enable leaves the lines of the other interrupts and
    the number of instances. *)
Lemma set_enable_other_line irq enabled s o s' irq' :
  headers_ok -> 0 <= irq < 2 ^ 32 -> NR_LOCAL_IRQS <= irq' -> irq <> irq' ->
  tegra_ictlr_set_interrupt_enable irq enabled s = (o, s') ->
  ictlr_line_enabled (ictlr s') irq' = ictlr_line_enabled (ictlr s) irq' /\
  length (ictlr s') = length (ictlr s).
Proof.
  intros Hok Hrange Hirq' Hne Hrun.
  destruct o as [[]|why].
  - destruct (set_enable_asserts_before_done irq enabled s s' Hok Hrun)
      as (Hb & Hirq & Hn).
    assert (Hpre : set_enable_pre irq s).
    { split; [assumption|]. split; [lia|].
      now rewrite <- ictlr_number_instance by (assumption || lia). }
    rewrite (set_enable_pre_run irq enabled s Hok Hpre) in Hrun.
    injection Hrun as <-. simpl. split; [|apply length_alter].
    apply line_after_write_other; assumption || congruence.
  - rewrite set_enable_run in Hrun by assumption.
    destruct (failed_assertion irq s); [|discriminate].
    injection Hrun as _ <-. easy.
Qed.

Lemma run_call_other_line c s o s' irq' :
  headers_ok -> 0 <= call_irq c < 2 ^ 32 -> NR_LOCAL_IRQS <= irq' ->
  call_irq c <> irq' ->
  run_call c s = (o, s') ->
  ictlr_line_enabled (ictlr s') irq' = ictlr_line_enabled (ictlr s) irq' /\
  length (ictlr s') = length (ictlr s).
Proof.
  intros Hok Hrange Hirq' Hne.
  destruct c as [desc priority|d virq desc priority]; simpl in *.
  - rewrite route_to_xen_run. rewrite int_to_unsigned_nonneg by lia.
    destruct (irq desc <? NR_LOCAL_IRQS); [intros [= <- <-]; easy|].
    intros Hrun.
    now apply (set_enable_other_line _ _ _ _ _ irq' Hok Hrange Hirq' Hne) in Hrun.
  - unfold bind at 1. rewrite route_to_guest_run. simpl.
    destruct (negb _); [intros [= <- <-]; easy|].
    destruct (irq desc <? NR_LOCAL_IRQS); [intros [= <- <-]; easy|].
    unfold bind.
    destruct (tegra_ictlr_set_interrupt_enable _ _ _) as [[[]|why] s1] eqn:Hset;
      intros [= <- <-];
      now apply (set_enable_other_line _ _ _ _ _ irq' Hok Hrange Hirq' Hne)
        in Hset.
Qed.

Lemma run_calls_other_line cs s o s' irq' :
  headers_ok ->
  Forall (fun c => 0 <= call_irq c < 2 ^ 32) cs ->
  NR_LOCAL_IRQS <= irq' ->
  Forall (fun c => call_irq c <> irq') cs ->
  run_calls cs s = (o, s') ->
  ictlr_line_enabled (ictlr s') irq' = ictlr_line_enabled (ictlr s) irq' /\
  tegra_ictlr_base s' = tegra_ictlr_base s /\
  length (ictlr s') = length (ictlr s).
Proof.
  intros Hok Hrange Hirq' Hne. revert s.
  induction cs as [|c cs IH]; intros s; simpl.
  - intros [= <- <-]. easy.
  - apply Forall_cons in Hrange as [Hc Hrange].
    apply Forall_cons in Hne as [Hnc Hne].
    specialize (IH Hrange Hne). unfold bind.
    destruct (run_call c s) as [[[]|why] s1] eqn:Hcall.
    + intros Hrest. apply IH in Hrest as (-> & -> & ->).
      destruct (run_call_other_line c s _ s1 irq' Hok Hc Hirq' Hnc Hcall)
        as [-> ->].
      now apply run_call_keeps in Hcall as [_ ->].
    + intros [= <- <-].
      destruct (run_call_other_line c s _ s1 irq' Hok Hc Hirq' Hnc Hcall)
        as [-> ->].
      now apply run_call_keeps in Hcall as [_ ->].
Qed.

(** X7: whatever routing calls are made, to their end or to a halt, an
    interrupt line of the controller that none of the calls is about keeps
    its enable bit, and the mapping and the number of instances stay as they
    were. *)
Theorem routing_leaves_other_lines cs s o s' irq' :
  headers_ok ->
  Forall (fun c => 0 <= call_irq c < 2 ^ 32) cs ->
  NR_LOCAL_IRQS <= irq' ->
  Forall (fun c => call_irq c <> irq') cs ->
  run_calls cs s = (o, s') ->
  ictlr_line_enabled (ictlr s') irq' = ictlr_line_enabled (ictlr s) irq' /\
  tegra_ictlr_base s' = tegra_ictlr_base s /\
  length (ictlr s') = length (ictlr s).
Proof. apply run_calls_other_line. Qed.

(** After the reset of all instances no line is enabled. *)
Lemma reset_line_disabled (hw : list ictlr_regs) irq :
  headers_ok -> NR_LOCAL_IRQS <= irq ->
  ictlr_line_enabled (reset_regs <$> hw) irq = false.
Proof.
  intros Hok Hirq. unfold ictlr_line_enabled. rewrite list_lookup_fmap.
  destruct (hw !! _) as [r|]; simpl; [|reflexivity].
  rewrite Z.ldiff_spec. change (2 ^ 32 - 1) with (Z.ones 32).
  pose proof irqs_per_ictlr_range Hok.
  pose proof (Z.mod_pos_bound (irq - NR_LOCAL_IRQS) TEGRA_IRQS_PER_ICTLR).
  rewrite Z.ones_spec_low by lia. apply andb_false_r.
Qed.

(** X8: after initialization a line of the controller is enabled by
    routing only: after any routing calls, run to their end or to a halt, a
    line that none of the calls was about is still disabled. *)
Theorem unrouted_lines_stay_disabled s0 s1 cs o s' irq' :
  headers_ok -> ictlr_present s0 ->
  tegra_init s0 = (Done 0, s1) ->
  Forall (fun c => 0 <= call_irq c < 2 ^ 32) cs ->
  NR_LOCAL_IRQS <= irq' ->
  Forall (fun c => call_irq c <> irq') cs ->
  run_calls cs s1 = (o, s') ->
  ictlr_line_enabled (ictlr s') irq' = false.
Proof.
  intros Hok Hlen Hinit Hrange Hirq' Hne Hrun.
  destruct (run_calls_other_line cs s1 o s' irq' Hok Hrange Hirq' Hne Hrun)
    as [-> _].
  unfold tegra_init in Hinit.
  rewrite (initialize_done s0 0 s1 Hok Hlen Hinit).
  now apply reset_line_disabled.
Qed.

Lemma reg_addr_routing_event base n enabled val :
  headers_ok -> 0 <= n < TEGRA_ICTLR_COUNT ->
  routing_event base
    (EvWritel val (ictlr_reg_addr base n (ier_register enabled))) = true.
Proof.
  intros Hok Hn. pose proof (ier_register_range enabled Hok) as Hreg.
  pose proof (reg_addr_in_window base n _ Hok Hn Hreg) as Hwin.
  pose proof ictlr_size_pos Hok. simpl.
  replace (ictlr_reg_addr base n (ier_register enabled) - base)
    with (ier_register enabled + n * TEGRA_ICTLR_SIZE)
    by (unfold ictlr_reg_addr; lia).
  rewrite Z_mod_plus_full, Z.mod_small by lia.
  apply andb_true_intro. split.
  - apply andb_true_intro. split; [apply Z.leb_le|apply Z.ltb_lt]; lia.
  - destruct enabled; simpl; rewrite Z.eqb_refl; [reflexivity|apply orb_true_r].
Qed.

Lemma set_enable_events irq enabled s o s' :
  headers_ok ->
  tegra_ictlr_set_interrupt_enable irq enabled s = (o, s') ->
  exists new,
    trace s' = trace s ++ new /\
    forallb (routing_event (tegra_ictlr_base s)) new = true.
Proof.
  intros Hok Hrun. destruct o as [[]|why].
  - destruct (set_enable_asserts_before_done irq enabled s s' Hok Hrun)
      as (_ & _ & Hn).
    rewrite set_enable_run in Hrun by assumption.
    destruct (failed_assertion irq s); [discriminate|].
    injection Hrun as <-. eexists. split; [reflexivity|].
    cbn [forallb]. rewrite reg_addr_routing_event; [reflexivity|assumption|].
    split; [now apply ictlr_number_nonneg|assumption].
  - rewrite set_enable_run in Hrun by assumption.
    destruct (failed_assertion irq s); [|discriminate].
    injection Hrun as _ <-. exists []. now rewrite app_nil_r.
Qed.

Lemma run_call_events c s o s' :
  headers_ok -> run_call c s = (o, s') ->
  exists new,
    trace s' = trace s ++ new /\
    forallb (routing_event (tegra_ictlr_base s)) new = true.
Proof.
  intros Hok. destruct c as [desc priority|d virq desc priority]; simpl.
  - rewrite route_to_xen_run.
    destruct (_ <? NR_LOCAL_IRQS).
    { intros [= <- <-]. now eexists. }
    intros Hrun. apply set_enable_events in Hrun as (new & -> & Hnew);
      [|assumption].
    exists (EvGicRouteToXen desc priority :: new). simpl.
    now rewrite <- app_assoc.
  - unfold bind at 1. rewrite route_to_guest_run. simpl.
    destruct (negb _).
    { intros [= <- <-]. eexists. simpl. rewrite <- app_assoc. now split. }
    destruct (irq desc <? NR_LOCAL_IRQS).
    { intros [= <- <-]. now eexists. }
    unfold bind.
    destruct (tegra_ictlr_set_interrupt_enable _ _ _) as [[[]|why] s1] eqn:Hset;
      intros [= <- <-];
      apply set_enable_events in Hset as (new & -> & Hnew); try assumption;
      eexists (_ :: new); simpl; now rewrite <- app_assoc.
Qed.

(** X9: whatever routing calls are made, to their end or to a halt, what
    they add to the trace is calls of the PIC, log lines, and writes to set
    or clear registers inside the mapped window: routing reads no register,
    maps and unmaps nothing, and writes neither a class register nor
    outside of the window. *)
Theorem routing_only_writes_enable_registers cs s o s' :
  headers_ok -> run_calls cs s = (o, s') ->
  exists new,
    trace s' = trace s ++ new /\
    forallb (routing_event (tegra_ictlr_base s)) new = true.
Proof.
  intros Hok. revert s. induction cs as [|c cs IH]; intros s; simpl.
  - intros [= <- <-]. exists []. now rewrite app_nil_r.
  - unfold bind. destruct (run_call c s) as [[[]|why] s1] eqn:Hcall.
    + intros Hrest. apply IH in Hrest as (rest & -> & Hrest).
      pose proof (run_call_keeps c s _ s1 Hok Hcall) as [_ Hbase].
      apply run_call_events in Hcall as (new & -> & Hnew); [|assumption].
      exists (new ++ rest). rewrite app_assoc. split; [reflexivity|].
      rewrite forallb_app, Hnew. now rewrite <- Hbase.
    + intros [= <- <-]. now apply run_call_events in Hcall.
Qed.

(** ** From boot to the first routed interrupt *)

(** X11: initialization followed by the routing of one line of the
    controller to the hypervisor returns with exactly that line enabled:
    every other line of the controller is disabled, whatever state the
    controller was in before. *)
Theorem boot_then_route_to_xen_enables_one_line desc priority s0 :
  headers_ok -> ictlr_present s0 ->
  vmap_result TEGRA_ICTLR_BASE (TEGRA_ICTLR_SIZE * TEGRA_ICTLR_COUNT) <> 0 ->
  NR_LOCAL_IRQS <= irq desc <
  NR_LOCAL_IRQS + TEGRA_IRQS_PER_ICTLR * TEGRA_ICTLR_COUNT ->
  irq desc < 2 ^ 32 ->
  exists s',
    (tegra_init ;;; tegra_route_irq_to_xen desc priority) s0 = (Done tt, s') /\
    (forall irq', NR_LOCAL_IRQS <= irq' ->
       ictlr_line_enabled (ictlr s') irq' = (irq' =? irq desc)).
Proof.
  intros Hok Hlen Hmap Hline Hrange. unfold bind at 1, tegra_init.
  rewrite initialize_run by assumption.
  destruct (Z.eqb_spec (vmap_result TEGRA_ICTLR_BASE
              (TEGRA_ICTLR_SIZE * TEGRA_ICTLR_COUNT)) 0) as [Hz|_];
    [contradiction|].
  set (mapped := {| tegra_ictlr_base := _; ictlr := ictlr s0; gic := gic s0;
                    trace := _ |}).
  set (s1 := after_resets _ 0 mapped).
  assert (Hregs : ictlr s1 = reset_regs <$> ictlr s0)
    by (now apply (after_resets_all mapped)).
  assert (Hbase : tegra_ictlr_base s1 = tegra_ictlr_base mapped)
    by apply after_resets_base.
  pose proof irqs_per_ictlr_range Hok as Hper.
  assert (Hpre : set_enable_pre (irq desc) (after_gic_xen desc priority s1)).
  { split; [simpl; rewrite Hbase; exact Hmap|]. split; [lia|].
    unfold ictlr_instance. apply Z.div_lt_upper_bound; lia. }
  rewrite route_to_xen_run.
  pose proof nr_local_range Hok as Hnr. rewrite int_to_unsigned_nonneg by lia.
  destruct (Z.ltb_spec (irq desc) NR_LOCAL_IRQS) as [Hlt|_]; [lia|].
  rewrite (set_enable_pre_run (irq desc) true _ Hok Hpre).
  eexists. split; [reflexivity|]. intros irq' Hirq'.
  replace (ictlr (after_write (after_gic_xen desc priority s1)
                    (ictlr_instance (irq desc)) (ier_register true)
                    (2 ^ ictlr_bit (irq desc))))
    with (alter (ictlr_write_reg (ier_register true) (2 ^ ictlr_bit (irq desc)))
            (Z.to_nat (ictlr_instance (irq desc))) (reset_regs <$> ictlr s0))
    by (now rewrite <- Hregs).
  destruct (Z.eqb_spec irq' (irq desc)) as [->|Hne].
  - apply (line_after_write_same (irq desc) true); [assumption|lia|].
    apply lookup_lt_is_Some. rewrite length_fmap, Hlen.
    destruct Hpre as (_ & _ & Hinst).
    pose proof (instance_nonneg (irq desc) Hok (proj1 Hline)). lia.
  - rewrite (line_after_write_other (irq desc) irq' true)
      by (assumption || lia).
    now apply reset_line_disabled.
Qed.

End Composition.

(** * The theorems at work on the sample platform *)

(** Closed facts about the sample platform hold by evaluation. *)
Ltac by_evaluation :=
  vm_compute; repeat split; try reflexivity; try discriminate;
  intros; discriminate.

Lemma sample_headers_ok : headers_ok (H := sample_headers).
Proof. constructor; by_evaluation. Defined.

#[local] Existing Instance sample_headers.

Lemma running_pre ier0 bound : set_enable_pre 50 (running ier0 bound).
Proof. by_evaluation. Defined.

(** Routing IRQ 50 to the hardware domain clears bit 18 of instance 0
    through the clear register; routing it to another domain sets it
    through the set register. *)
Lemma route_to_guest_sets_enable_witness :
  (exists s',
     tegra_route_irq_to_guest dom0 50 {| irq := 50 |} 0xa0 (running 0x40000 [])
     = (Done 0, s') /\
     ictlr_line_enabled (ictlr s') 50 = false /\
     trace s' =
       [EvGicRouteToGuest dom0 50 {| irq := 50 |} 0xa0 0;
        EvWritel 0x40000 (sample_va + 0x28)]) /\
  (exists s',
     tegra_route_irq_to_guest domU 50 {| irq := 50 |} 0xa0 (running 0 [])
     = (Done 0, s') /\
     ictlr_line_enabled (ictlr s') 50 = true /\
     trace s' =
       [EvGicRouteToGuest domU 50 {| irq := 50 |} 0xa0 0;
        EvWritel 0x40000 (sample_va + 0x24)]).
Proof.
  split.
  - exact (route_to_guest_sets_enable dom0 50 {| irq := 50 |} 0xa0
             (running 0x40000 [])
             sample_headers_ok eq_refl eq_refl (running_pre _ _)).
  - exact (route_to_guest_sets_enable domU 50 {| irq := 50 |} 0xa0
             (running 0 [])
             sample_headers_ok eq_refl eq_refl (running_pre _ _)).
Defined.

(** A line of a Tegra X1 legacy controller is routable, a line of a UART
    is not, whatever the order of the table. *)
Lemma routable_classification_witness :
  tegra_irq_is_routable (COL := sample_collaborators sample_va)
    {| controller :=
         {| node_ptr := 0x9000; compatible := "nvidia,tegra210-ictlr" |} |}
  = true /\
  irq_is_routable_with (COL := sample_collaborators sample_va)
    ["nvidia,tegra210-ictlr"; "nvidia,tegra124-ictlr"]%string
    {| controller :=
         {| node_ptr := 0xa000; compatible := "nvidia,tegra20-uart" |} |}
  = tegra_irq_is_routable (COL := sample_collaborators sample_va)
      {| controller :=
           {| node_ptr := 0xa000; compatible := "nvidia,tegra20-uart" |} |}.
Proof.
  split.
  - apply (proj1 (routable_classification _)). right. right. reflexivity.
  - apply (proj2 (routable_classification _)). apply perm_swap.
Defined.

(** Enabling IRQ 50: one write of bit 18 to the set register of
    instance 0. *)
Lemma set_enable_writes_one_bit_mask_witness :
  exists mask s',
    tegra_ictlr_set_interrupt_enable 50 true (running 0 []) = (Done tt, s') /\
    (forall j, Z.testbit mask j = (j =? 18)) /\
    trace s' = [EvWritel mask (sample_va + 0x100 * 0 + 0x24)] /\
    tegra_ictlr_base s' = sample_va /\
    gic s' = @nil Z.
Proof.
  exact (set_enable_writes_one_bit_mask 50 true (running 0 [])
           sample_headers_ok (running_pre _ _)).
Defined.

(** IRQ 10 is local and is bound for the hypervisor without a register
    access; IRQ 50 is bound and then enabled; a descriptor holding -1 goes
    to set_enable as 0xffffffff. *)
Lemma route_to_xen_pic_then_enable_witness :
  (exists s',
     tegra_route_irq_to_xen {| irq := 10 |} 0xa0 (running 0 []) = (Done tt, s') /\
     ictlr s' = ictlr (running 0 []) /\
     tegra_ictlr_base s' = sample_va /\
     trace s' = [EvGicRouteToXen {| irq := 10 |} 0xa0]) /\
  (exists s',
     tegra_route_irq_to_xen {| irq := 50 |} 0xa0 (running 0 []) = (Done tt, s') /\
     ictlr_line_enabled (ictlr s') 50 = true /\
     trace s' =
       [EvGicRouteToXen {| irq := 50 |} 0xa0;
        EvWritel 0x40000 (sample_va + 0x24)]) /\
  tegra_route_irq_to_xen {| irq := -1 |} 0xa0 (running 0 []) =
  tegra_ictlr_set_interrupt_enable 0xffffffff true
    (after_gic_xen {| irq := -1 |} 0xa0 (running 0 [])).
Proof.
  split; [|split].
  - destruct (route_to_xen_pic_then_enable {| irq := 10 |} 0xa0 (running 0 [])
                sample_headers_ok) as (Hlocal & _).
    apply Hlocal. by_evaluation.
  - destruct (route_to_xen_pic_then_enable {| irq := 50 |} 0xa0 (running 0 [])
                sample_headers_ok) as (_ & _ & _ & Hshared & _).
    exact (Hshared (running_pre _ _) eq_refl).
  - destruct (route_to_xen_pic_then_enable {| irq := -1 |} 0xa0 (running 0 [])
                sample_headers_ok) as (_ & _ & Hwrap & _).
    exact (Hwrap ltac:(by_evaluation) ltac:(by_evaluation)).
Defined.

(** The PIC refuses IRQ 50, which is bound already: the code is returned
    and the controller is not touched. *)
Lemma route_to_guest_pic_failure_witness :
  exists s',
    tegra_route_irq_to_guest domU 50 {| irq := 50 |} 0xa0 (running 0 [50])
    = (Done (-16), s') /\
    ictlr s' = ictlr (running 0 [50]) /\
    tegra_ictlr_base s' = sample_va /\
    trace s' =
      [EvGicRouteToGuest domU 50 {| irq := 50 |} 0xa0 (-16);
       EvPrintk (String.append
                   "Tegra LIC: Couldn't program GIC to route vIRQ %d (%d)."
                   newline) [50; -16]].
Proof.
  destruct (route_to_guest_pic_failure domU 50 {| irq := 50 |} 0xa0
              (running 0 [50])) as (Hfail & _).
  apply Hfail. by_evaluation.
Defined.

(** IRQ 300 has no instance, IRQ 10 is local, and before initialization
    nothing is mapped: each call halts where it started. *)
Lemma set_enable_asserts_before_write_witness :
  (exists predicate,
     tegra_ictlr_set_interrupt_enable 300 true (running 0 [])
     = (Halt (assert_failed predicate), running 0 [])) /\
  (exists predicate,
     tegra_ictlr_set_interrupt_enable 10 false (running 0 [])
     = (Halt (assert_failed predicate), running 0 [])) /\
  (exists predicate,
     tegra_ictlr_set_interrupt_enable 50 true (power_on sample_va)
     = (Halt (assert_failed predicate), power_on sample_va)).
Proof.
  split; [|split].
  - apply (proj1 (set_enable_asserts_before_write 300 true (running 0 [])
                    sample_headers_ok)).
    right. right. by_evaluation.
  - apply (proj1 (set_enable_asserts_before_write 10 false (running 0 [])
                    sample_headers_ok)).
    right. left. by_evaluation.
  - apply (proj1 (set_enable_asserts_before_write 50 true (power_on sample_va)
                    sample_headers_ok)).
    left. reflexivity.
Defined.

(** Initialization of the six instances: a failed mapping is a panic, a
    successful one is followed by twelve writes. *)
Lemma initialization_resets_every_instance_witness :
  (exists message s',
     tegra_initialize_legacy_interrupt_controller (power_on 0)
     = (Halt (panicked message), s') /\
     ictlr s' = ictlr (power_on 0) /\
     trace s' = [EvIoremap 0x60004000 0x600 0]) /\
  (exists s',
     tegra_initialize_legacy_interrupt_controller (power_on sample_va)
     = (Done 0, s') /\
     tegra_ictlr_base s' = sample_va /\
     trace s' =
       [EvIoremap 0x60004000 0x600 sample_va;
        EvWritel 0xffffffff (sample_va + 0x028); EvWritel 0 (sample_va + 0x02c);
        EvWritel 0xffffffff (sample_va + 0x128); EvWritel 0 (sample_va + 0x12c);
        EvWritel 0xffffffff (sample_va + 0x228); EvWritel 0 (sample_va + 0x22c);
        EvWritel 0xffffffff (sample_va + 0x328); EvWritel 0 (sample_va + 0x32c);
        EvWritel 0xffffffff (sample_va + 0x428); EvWritel 0 (sample_va + 0x42c);
        EvWritel 0xffffffff (sample_va + 0x528); EvWritel 0 (sample_va + 0x52c)] /\
     ictlr_present s' /\
     (forall r, r ∈ ictlr s' ->
        cpu_iep_class r = 0 /\
        forall k, 0 <= k < 32 -> Z.testbit (cpu_ier r) k = false) /\
     (forall irq, 32 <= irq -> ictlr_line_enabled (ictlr s') irq = false)).
Proof.
  split.
  - destruct (initialization_resets_every_instance (power_on 0)
                sample_headers_ok eq_refl) as (Hfail & _).
    exact (Hfail eq_refl).
  - destruct (initialization_resets_every_instance (power_on sample_va)
                sample_headers_ok eq_refl) as (_ & Hmapped).
    apply Hmapped. by_evaluation.
Defined.

(** Lines 18 and 19 of instance 0 are enabled; enabling and disabling
    IRQ 50 (line 18) leaves line 18 disabled and the other lines as they
    were. *)
Lemma enable_then_disable_round_trip_witness :
  exists s2,
    (tegra_ictlr_set_interrupt_enable 50 true ;;;
     tegra_ictlr_set_interrupt_enable 50 false) (running 0xc0000 [])
    = (Done tt, s2) /\
    ictlr_line_enabled (ictlr s2) 50 = false /\
    (forall irq',
       32 <= irq' -> irq' <> 50 -> ictlr_instance irq' = ictlr_instance 50 ->
       ictlr_line_enabled (ictlr s2) irq' =
       ictlr_line_enabled (ictlr (running 0xc0000 [])) irq').
Proof.
  exact (enable_then_disable_round_trip 50 (running 0xc0000 [])
           sample_headers_ok (running_pre _ _)).
Defined.

(** Enabling IRQ 50 twice is enabling it once, and the line is enabled. *)
Lemma enable_twice_is_enable_once_witness :
  let once := tegra_ictlr_set_interrupt_enable 50 true (running 0 []) in
  let twice := (tegra_ictlr_set_interrupt_enable 50 true ;;;
                tegra_ictlr_set_interrupt_enable 50 true) (running 0 []) in
  fst twice = fst once /\
  ictlr (snd twice) = ictlr (snd once) /\
  tegra_ictlr_base (snd twice) = tegra_ictlr_base (snd once) /\
  fst once = Done tt /\
  ictlr_line_enabled (ictlr (snd once)) 50 = true.
Proof.
  intros once twice.
  destruct (enable_twice_is_enable_once 50 (running 0 []) sample_headers_ok)
    as (Hout & Hregs & Hbase & Hdone).
  split; [exact Hout|]. split; [exact Hregs|]. split; [exact Hbase|].
  exact (Hdone (running_pre _ _) eq_refl).
Defined.

(** After initialization, binding IRQ 50 for the hypervisor, IRQ 60 for a
    guest, IRQ 70 for the hardware domain and IRQ 300, which halts the
    hypervisor, leaves every class register zero. *)
Lemma routing_never_touches_class_registers_witness :
  Forall (fun r => cpu_iep_class r = 0)
    (ictlr (snd (run_calls
                   [route_to_xen {| irq := 50 |} 0xa0;
                    route_to_guest domU 60 {| irq := 60 |} 0xa0;
                    route_to_guest dom0 70 {| irq := 70 |} 0xa0;
                    route_to_xen {| irq := 300 |} 0xa0]
                   (snd (tegra_initialize_legacy_interrupt_controller
                           (power_on sample_va)))))).
Proof.
  apply Forall_forall.
  destruct (routing_never_touches_class_registers
              (COL := sample_collaborators sample_va) sample_headers_ok)
    as (_ & _ & Hinit).
  eapply (Hinit (power_on sample_va)).
  - reflexivity.
  - vm_compute. reflexivity.
  - apply surjective_pairing.
Defined.

(** A local interrupt is bound for a guest before the controller is
    mapped. *)
Lemma route_to_guest_local_bypasses_ictlr_witness :
  exists s',
    tegra_route_irq_to_guest domU 10 {| irq := 10 |} 0xa0 (power_on sample_va)
    = (Done 0, s') /\
    ictlr s' = ictlr (power_on sample_va) /\
    tegra_ictlr_base s' = 0 /\
    gic s' = (10 :: @nil Z) /\
    trace s' = [EvGicRouteToGuest domU 10 {| irq := 10 |} 0xa0 0].
Proof.
  apply (route_to_guest_local_bypasses_ictlr domU 10 {| irq := 10 |} 0xa0
           (power_on sample_va)); by_evaluation.
Defined.

(** IRQ 300 has no instance: both routing calls halt, the interrupt
    bound in the PIC. *)
Lemma route_halts_after_pic_binding_witness :
  (exists predicate,
     tegra_route_irq_to_xen {| irq := 300 |} 0xa0 (running 0 []) =
     (Halt (assert_failed predicate),
      Build_machine (COL := sample_collaborators sample_va) sample_va
        (ictlr (running 0 [])) [300]
        [EvGicRouteToXen {| irq := 300 |} 0xa0])) /\
  (exists predicate,
     tegra_route_irq_to_guest domU 300 {| irq := 300 |} 0xa0 (running 0 []) =
     (Halt (assert_failed predicate),
      Build_machine (COL := sample_collaborators sample_va) sample_va
        (ictlr (running 0 [])) [300]
        [EvGicRouteToGuest domU 300 {| irq := 300 |} 0xa0 0])).
Proof.
  destruct (route_halts_after_pic_binding domU 300 {| irq := 300 |} 0xa0
              (running 0 []) sample_headers_ok)
    as (Hxen & Hguest); [by_evaluation|right; by_evaluation|].
  split; [exact Hxen|exact (Hguest eq_refl)].
Defined.

(** Enabling and then disabling IRQ 50 is disabling it. *)
Lemma set_enable_last_call_wins_witness :
  exists s12 s2,
    (tegra_ictlr_set_interrupt_enable 50 true ;;;
     tegra_ictlr_set_interrupt_enable 50 false) (running 0 []) = (Done tt, s12) /\
    tegra_ictlr_set_interrupt_enable 50 false (running 0 []) = (Done tt, s2) /\
    ictlr s12 = ictlr s2 /\
    ictlr_line_enabled (ictlr s12) 50 = false.
Proof.
  destruct (set_enable_last_call_wins 50 true false (running 0 [])
              sample_headers_ok (running_pre _ _))
    as (s12 & s2 & Hboth & Hlast & Hregs & Hline).
  exists s12, s2. split; [exact Hboth|]. split; [exact Hlast|].
  split; [exact Hregs|exact (Hline eq_refl)].
Defined.

(** IRQ 50 and IRQ 51 share instance 0; enabling the one and disabling
    the other in either order ends in the same state. *)
Lemma set_enable_commutes_witness :
  exists s12 s21,
    (tegra_ictlr_set_interrupt_enable 50 true ;;;
     tegra_ictlr_set_interrupt_enable 51 false) (running 0xc0000 [])
    = (Done tt, s12) /\
    (tegra_ictlr_set_interrupt_enable 51 false ;;;
     tegra_ictlr_set_interrupt_enable 50 true) (running 0xc0000 [])
    = (Done tt, s21) /\
    ictlr s12 = ictlr s21 /\
    tegra_ictlr_base s12 = tegra_ictlr_base s21.
Proof.
  apply (set_enable_commutes 50 true 51 false (running 0xc0000 [])
           sample_headers_ok (running_pre _ _)); by_evaluation.
Defined.

(** With six instances of 32 lines above 32 local interrupts, IRQ 223 is
    the last line of the controller and IRQ 224 is refused. *)
Lemma set_enable_accepts_exactly_controller_lines_witness :
  (exists s',
     tegra_ictlr_set_interrupt_enable 223 true (running 0 []) = (Done tt, s')) /\
  ~ (exists s',
       tegra_ictlr_set_interrupt_enable 224 true (running 0 []) = (Done tt, s')).
Proof.
  split.
  - apply (proj2 (set_enable_accepts_exactly_controller_lines 223 true
                    (running 0 []) sample_headers_ok ltac:(by_evaluation))).
    by_evaluation.
  - intros Hdone.
    apply (proj1 (set_enable_accepts_exactly_controller_lines 224 true
                    (running 0 []) sample_headers_ok ltac:(by_evaluation)))
      in Hdone.
    destruct Hdone as (_ & _ & Hlt). vm_compute in Hlt. discriminate.
Defined.

(** The local IRQ 10 fails the check of the instance index. *)
Lemma local_irq_fails_instance_check_witness :
  tegra_ictlr_set_interrupt_enable 10 true (running 0 []) =
  (Halt (assert_failed "ictlr_number < TEGRA_ICTLR_COUNT"), running 0 []).
Proof.
  apply (proj1 (local_irq_fails_instance_check 10 true (running 0 [])
                  sample_headers_ok ltac:(by_evaluation) ltac:(by_evaluation)));
    by_evaluation.
Defined.

Lemma sample_calls_range :
  Forall (fun c => 0 <= call_irq c < 2 ^ 32) sample_calls.
Proof. repeat constructor; by_evaluation. Defined.

Lemma sample_calls_not_52 :
  Forall (fun c => call_irq c <> 52) sample_calls.
Proof. repeat constructor; by_evaluation. Defined.

(** Line 20 of instance 0 (IRQ 52) is enabled and stays so while other
    interrupts are routed. *)
Lemma routing_leaves_other_lines_witness :
  ictlr_line_enabled
    (ictlr (snd (run_calls sample_calls (running 0x100000 [])))) 52 = true /\
  tegra_ictlr_base (snd (run_calls sample_calls (running 0x100000 [])))
  = sample_va /\
  length (ictlr (snd (run_calls sample_calls (running 0x100000 [])))) = 6%nat.
Proof.
  exact (routing_leaves_other_lines sample_calls (running 0x100000 [])
           (fst (run_calls sample_calls (running 0x100000 [])))
           (snd (run_calls sample_calls (running 0x100000 [])))
           52 sample_headers_ok sample_calls_range ltac:(by_evaluation)
           sample_calls_not_52 (surjective_pairing _)).
Defined.

(** After the boot IRQ 52, which is never routed, stays disabled. *)
Lemma unrouted_lines_stay_disabled_witness :
  ictlr_line_enabled (ictlr (snd (run_calls sample_calls booted))) 52 = false.
Proof.
  apply (unrouted_lines_stay_disabled (power_on sample_va) booted sample_calls
           (fst (run_calls sample_calls booted))
           (snd (run_calls sample_calls booted)) 52 sample_headers_ok eq_refl).
  - vm_compute. reflexivity.
  - exact sample_calls_range.
  - by_evaluation.
  - exact sample_calls_not_52.
  - apply surjective_pairing.
Defined.

(** The sample calls add PIC calls and writes to set and clear registers
    only. *)
Lemma routing_only_writes_enable_registers_witness :
  exists new,
    trace (snd (run_calls sample_calls booted)) = trace booted ++ new /\
    forallb (routing_event (HDR := sample_headers) sample_va) new = true.
Proof.
  exact (routing_only_writes_enable_registers sample_calls booted
           (fst (run_calls sample_calls booted))
           (snd (run_calls sample_calls booted))
           sample_headers_ok (surjective_pairing _)).
Defined.

(** Boot, then IRQ 50 for the hypervisor: line 18 of instance 0 is the
    only line enabled. *)
Lemma boot_then_route_to_xen_enables_one_line_witness :
  exists s',
    (tegra_init ;;; tegra_route_irq_to_xen {| irq := 50 |} 0xa0)
      (power_on sample_va) = (Done tt, s') /\
    (forall irq', 32 <= irq' ->
       ictlr_line_enabled (ictlr s') irq' = (irq' =? 50)).
Proof.
  apply (boot_then_route_to_xen_enables_one_line {| irq := 50 |} 0xa0
           (power_on sample_va) sample_headers_ok eq_refl); by_evaluation.
Defined.
